(** * Thumbnail composition pipeline (app/backend/services/pillow_utils.py)

    A shallow embedding of [ThumbnailComposer]: canvas normalisation,
    word wrap, font-size search, logo processing, size-bounded JPEG
    encoding and the orchestrating [compose_thumbnail].

    Modelling conventions.
    - Python [int] is [Z]; [//] is [Z.div] (floor); [int(x)] of a float is
      truncation toward zero.
    - Python [str] is [string], its characters read as code points below
      256; [bytes] is [list byte].
    - Python floats are exact rationals ([Q]): the rounding of binary64 is
      idealised.  Each float expression of the module is one product or
      quotient of pixel counts and a ratio, truncated by [int] or compared
      with an integer.  Rounding can show only where the exact value is an
      integer, and then as a truncation one pixel lower (the derived logo
      dimension); the statements about derived dimensions leave room for
      that pixel.
    - Exceptions are values of [exn] carried by [result].
    - A PIL image is its [size], its [mode] and a symbolic [Raster] that
      records how its pixels were produced; drawing on the canvas in place
      is state passing.
    - What the host supplies (the font loader, the image decoder, the JPEG
      encoder, the clock) is a [Variable] of the section that embeds the
      methods using it. *)

From Stdlib Require Import ZArith QArith Qabs Lia List Bool Ascii String.
From Stdlib.Strings Require Import Byte.
From Stdlib Require Import DecimalString Permutation Sorted.
From Equations Require Import Equations.
Import ListNotations.

Local Open Scope Z_scope.

(** ** Python primitives *)

Module Py.

Inductive exn : Type :=
| ValueError (msg : string)
| ZeroDivisionError
| UnidentifiedImageError
| OSError (msg : string)
| UnboundLocalError (name : string).

Inductive result (A : Type) : Type :=
| Ok (a : A)
| Raise (e : exn).

Arguments Ok {A} a.
Arguments Raise {A} e.

Definition bind {A B : Type} (r : result A) (k : A -> result B) : result B :=
  match r with
  | Ok a => k a
  | Raise e => Raise e
  end.

(** [try: ... except Exception: return None] *)
Definition except_None {A : Type} (r : result A) : option A :=
  match r with
  | Ok a => Some a
  | Raise _ => None
  end.

(** [int(x)] for a float [x]: truncation toward zero. *)
Definition int (x : Q) : Z := Z.quot (Qnum x) (Zpos (Qden x)).

(** [a / b] on integers: true division, [ZeroDivisionError] when [b = 0]. *)
Definition truediv (a b : Z) : result Q :=
  if b =? 0 then Raise ZeroDivisionError
  else Ok (Qmake (Z.sgn b * a) (Z.to_pos (Z.abs b))).

Definition Qltb (x y : Q) : bool := negb (Qle_bool y x).

(** [str.isspace] on one character (code points below 256). *)
Definition isspace (c : ascii) : bool :=
  let n := nat_of_ascii c in
  ((9 <=? n) && (n <=? 13) || (28 <=? n) && (n <=? 32)
   || (n =? 133) || (n =? 160))%nat.

Definition is_empty (s : string) : bool :=
  match s with
  | EmptyString => true
  | String _ _ => false
  end.

(** [split_from acc s]: the words of [acc ++ s] when [acc] is the word
    being read. *)
Fixpoint split_from (acc s : string) : list string :=
  match s with
  | EmptyString => if is_empty acc then [] else [acc]
  | String c s' =>
      if isspace c
      then (if is_empty acc then split_from EmptyString s'
            else acc :: split_from EmptyString s')
      else split_from (acc ++ String c EmptyString) s'
  end.

(** [s.split()]: maximal runs of non-whitespace characters. *)
Definition split (s : string) : list string := split_from EmptyString s.

End Py.

Import Py.

Notation "x <- r ;; k" := (Py.bind r (fun x => k))
  (at level 61, r at next level, right associativity).

(** ** The parts of Pillow the composer calls *)

Module PIL.

(** A font is what [ImageDraw.textbbox((0, 0), text, font=font)] returns
    for it: [(left, top, right, bottom)]. *)
Record Font : Type := mkFont {
  textbbox : string -> Z * Z * Z * Z
}.

Inductive Raster : Type :=
| Source (data : string)
| Resize (r : Raster) (size : Z * Z)
| Crop (r : Raster) (box : Z * Z * Z * Z)
| Convert (r : Raster) (mode : string)
| DrawText (r : Raster) (xy : Z * Z) (text : string) (font : Font) (fill : string)
| DrawRectangle (r : Raster) (box : Z * Z * Z * Z) (fill : string)
| Paste (r : Raster) (overlay : Raster) (xy : Z * Z).

(** [has_transparency] is ['transparency' in im.info]. *)
Record Image : Type := mkImage {
  size : Z * Z;
  mode : string;
  has_transparency : bool;
  raster : Raster
}.

Definition width (im : Image) : Z := fst (size im).
Definition height (im : Image) : Z := snd (size im).

(** [Image.resize]: an empty target size is refused
    ([ValueError: height and width must be > 0]). *)
Definition resize (im : Image) (sz : Z * Z) : result Image :=
  let '(w, h) := sz in
  if (w <? 1) || (h <? 1)
  then Raise (ValueError "height and width must be > 0")
  else Ok (mkImage sz (mode im) (has_transparency im) (Resize (raster im) sz)).

(** [Image.crop]: the box may leave the image; the result has the size of
    the box. *)
Definition crop (im : Image) (box : Z * Z * Z * Z) : result Image :=
  let '(x0, upper, x1, lower) := box in
  if x1 <? x0
  then Raise (ValueError "Coordinate 'right' is less than 'left'")
  else if lower <? upper
  then Raise (ValueError "Coordinate 'lower' is less than 'upper'")
  else Ok (mkImage (x1 - x0, lower - upper) (mode im)
             (has_transparency im) (Crop (raster im) box)).

Definition convert (im : Image) (m : string) : Image :=
  mkImage (size im) m (has_transparency im) (Convert (raster im) m).

End PIL.

Import PIL.

(** ** ThumbnailComposer *)

(** [settings.Settings]: the fields the composer reads. *)
Record Settings : Type := mkSettings {
  data_dir : string;
  max_file_size_mb : Z;
  jpeg_quality_start : Z;
  jpeg_quality_min : Z
}.

Definition max_file_size_bytes (s : Settings) : Z :=
  max_file_size_mb s * 1024 * 1024.

(** The defaults of the [Field] declarations. *)
Definition default_settings : Settings :=
  mkSettings "./data/thumbnails" 2 92 76.

Module ThumbnailComposer.

(** [__init__] *)
Definition canvas_width : Z := 1280.
Definition canvas_height : Z := 720.
Definition text_area_width : Z := int (inject_Z canvas_width * (45 # 100))%Q.
Definition text_margin_left : Z := 40.
Definition text_margin_top : Z := 60.
Definition logo_max_width : Z := int (inject_Z canvas_width * (18 # 100))%Q.
Definition logo_margin : Z := 30.

Definition _resize_background_to_canvas (background : Image) : result Image :=
  let '(bg_width, bg_height) := size background in
  target_ratio <- truediv canvas_width canvas_height ;;
  bg_ratio <- truediv bg_width bg_height ;;
  if Qltb (Qabs (bg_ratio - target_ratio)%Q) (1 # 100)
  then resize background (canvas_width, canvas_height)
  else if Qltb target_ratio bg_ratio
  then
    let new_height := canvas_height in
    let new_width := int (inject_Z bg_height * target_ratio)%Q in
    scaled <- resize background (new_width, new_height) ;;
    let left := (new_width - canvas_width) / 2 in
    crop scaled (left, 0, left + canvas_width, canvas_height)
  else
    let new_width := canvas_width in
    let new_height := int (inject_Z bg_width / target_ratio)%Q in
    scaled <- resize background (new_width, new_height) ;;
    let top := (new_height - canvas_height) / 2 in
    crop scaled (0, top, canvas_width, top + canvas_height).

Definition _calculate_text_size (text : string) (font : Font) : Z * Z :=
  let '(x0, y0, x1, y1) := textbbox font text in
  let width := x1 - x0 in
  let height := y1 - y0 in
  (width, height).

(** One iteration of the [for word in words] loop of
    [_wrap_text_to_fit], on the pair [(lines, current_line)]. *)
Definition wrap_step (font : Font) (max_width : Z)
    (st : list string * string) (word : string) : list string * string :=
  let '(lines, current_line) := st in
  let test_line :=
    (current_line
     ++ (if negb (is_empty current_line) then " " ++ word else word))%string in
  let '(test_width, _) := _calculate_text_size test_line font in
  if test_width <=? max_width
  then (lines, test_line)
  else if negb (is_empty current_line)
  then (lines ++ [current_line], word)
  else (lines ++ [word], EmptyString).

Definition _wrap_text_to_fit (text : string) (font : Font) (max_width : Z)
    : list string :=
  let words := split text in
  let '(lines, current_line) :=
    fold_left (wrap_step font max_width) words ([], EmptyString) in
  if negb (is_empty current_line) then lines ++ [current_line] else lines.

(** [_add_accent_bar] *)
Definition _add_accent_bar (canvas : Image) (text_y : Z) (accent_color : string)
    : Image :=
  let bar_height := 8 in
  let bar_width := 200 in
  let bar_x := text_margin_left in
  let bar_y := text_y - 25 in
  mkImage (size canvas) (mode canvas) (has_transparency canvas)
    (DrawRectangle (raster canvas)
       (bar_x, bar_y, bar_x + bar_width, bar_y + bar_height) accent_color).

(** [range(a, b)] *)
Definition range (a b : Z) : list Z :=
  map (fun i => a + Z.of_nat i) (seq 0 (Z.to_nat (b - a))).

Definition draw_text (canvas : Image) (xy : Z * Z) (text : string)
    (font : Font) (fill : string) : Image :=
  mkImage (size canvas) (mode canvas) (has_transparency canvas)
    (DrawText (raster canvas) xy text font fill).

Definition _draw_text_with_effects (canvas : Image) (position : Z * Z)
    (text : string) (font : Font) (fill_color stroke_color : string)
    (stroke_width : Z) : Image :=
  let '(x, y) := position in
  let outlined :=
    fold_left (fun c dx =>
      fold_left (fun c dy =>
        if (dx =? 0) && (dy =? 0) then c
        else draw_text c (x + dx, y + dy) text font stroke_color)
        (range (- stroke_width) (stroke_width + 1)) c)
      (range (- stroke_width) (stroke_width + 1)) canvas in
  draw_text outlined (x, y) text font fill_color.

Definition _add_logo_overlay (canvas logo : Image) : Image :=
  let logo_x := canvas_width - width logo - logo_margin in
  let logo_y := canvas_height - height logo - logo_margin in
  mkImage (size canvas) (mode canvas) (has_transparency canvas)
    (Paste (raster canvas) (raster logo) (logo_x, logo_y)).

Section Host.

(** [self.settings] *)
Variable settings : Settings.
(** [_get_font]: which of the candidate fonts the host can load at a
    size; [None] when even the fallbacks fail. *)
Variable _get_font : Z -> option Font.
(** [Image.open(BytesIO(data))] *)
Variable Image_open : list byte -> result Image.
(** [image.save(buffer, format='JPEG', quality=quality, optimize=True,
    progressive=True, subsampling=0); buffer.getvalue()] *)
Variable save_jpeg : Image -> Z -> list byte.
(** [datetime.now().strftime(...)] *)
Variable now : string.

Definition Layout : Type := option Font * list string * Z.

(** The [while min_size <= max_size] loop of
    [_find_optimal_font_size], on
    [(min_size, max_size, (best_font, best_lines, best_size))]. *)
Equations search_loop (text : string) (max_width max_height : Z)
    (min_size max_size : Z) (best : Layout) : Layout
    by wf (Z.to_nat (max_size - min_size + 1)) lt :=
search_loop text max_width max_height min_size max_size best
  with Z_le_gt_dec min_size max_size := {
  | right _ => best
  | left _ =>
      let size := (min_size + max_size) / 2 in
      match _get_font size with
      | None => search_loop text max_width max_height min_size (size - 1) best
      | Some font =>
          let lines := _wrap_text_to_fit text font max_width in
          let line_height := snd (_calculate_text_size "Ay" font) in
          let total_height :=
            (inject_Z (Z.of_nat (List.length lines) * line_height) * (12 # 10))%Q in
          if Qle_bool total_height (inject_Z max_height)
          then search_loop text max_width max_height (size + 1) max_size
                 (Some font, lines, size)
          else search_loop text max_width max_height min_size (size - 1) best
      end }.
Next Obligation.
  assert (min_size <= (min_size + max_size) / 2 <= max_size)
    by (split; [apply Z.div_le_lower_bound | apply Z.div_le_upper_bound]; lia).
  lia.
Qed.
Next Obligation.
  assert (min_size <= (min_size + max_size) / 2 <= max_size)
    by (split; [apply Z.div_le_lower_bound | apply Z.div_le_upper_bound]; lia).
  lia.
Qed.
Next Obligation.
  assert (min_size <= (min_size + max_size) / 2 <= max_size)
    by (split; [apply Z.div_le_lower_bound | apply Z.div_le_upper_bound]; lia).
  lia.
Qed.

Definition _find_optimal_font_size (text : string) (max_width max_height : Z)
    : Layout :=
  let min_size := 20 in
  let max_size := 120 in
  let best_font := None in
  let best_lines := [] in
  let best_size := min_size in
  search_loop text max_width max_height min_size max_size
    (best_font, best_lines, best_size).

(** The body of the [try] of [_process_logo]. *)
Definition process_logo_body (logo_data : list byte) : result Image :=
  logo <- Image_open logo_data ;;
  let logo :=
    if negb (String.eqb (mode logo) "RGBA")
    then (if (String.eqb (mode logo) "P" || String.eqb (mode logo) "LA")
             && has_transparency logo
          then convert logo "RGBA"
          else convert logo "RGBA")
    else logo in
  let '(logo_width, logo_height) := size logo in
  aspect_ratio <- truediv logo_width logo_height ;;
  let '(new_width, new_height) :=
    if logo_height <? logo_width
    then
      let new_width := Z.min logo_max_width logo_width in
      (new_width, int (inject_Z new_width / aspect_ratio)%Q)
    else
      let max_height := int (inject_Z canvas_height * (15 # 100))%Q in
      let new_height := Z.min max_height logo_height in
      (int (inject_Z new_height * aspect_ratio)%Q, new_height) in
  resize logo (new_width, new_height).

Definition _process_logo (logo_data : list byte) : option Image :=
  except_None (process_logo_body logo_data).

(** The [while quality >= min_quality] loop of [_optimize_jpeg_size];
    [last] is [jpeg_data], unbound before the first iteration. *)
Equations optimize_loop (image : Image) (max_size_bytes : Z)
    (min_quality quality : Z) (last : option (list byte))
    : result (list byte)
    by wf (Z.to_nat (quality - min_quality + 1)) lt :=
optimize_loop image max_size_bytes min_quality quality last
  with Z_lt_ge_dec quality min_quality := {
  | left _ =>
      match last with
      | Some jpeg_data => Ok jpeg_data
      | None => Raise (UnboundLocalError "file_size")
      end
  | right _ =>
      let jpeg_data := save_jpeg image quality in
      let file_size := Z.of_nat (List.length jpeg_data) in
      if file_size <=? max_size_bytes
      then Ok jpeg_data
      else optimize_loop image max_size_bytes min_quality (quality - 5)
             (Some jpeg_data) }.
Next Obligation. lia. Qed.

Definition _optimize_jpeg_size (image : Image) (max_size_bytes : Z)
    : result (list byte) :=
  let quality := jpeg_quality_start settings in
  let min_quality := jpeg_quality_min settings in
  optimize_loop image max_size_bytes min_quality quality None.

(** What [compose_thumbnail] leaves behind: the file it wrote. *)
Record Thumbnail : Type := mkThumbnail {
  file_path : string;
  file_bytes : list byte;
  pixels : Image
}.

Definition compose_thumbnail (background_image : Image) (title : string)
    (accent_color : string) (logo_image : option (list byte))
    (request_id : option string) : result Thumbnail :=
  canvas <- _resize_background_to_canvas background_image ;;
  let text_area_height := canvas_height - text_margin_top * 2 in
  let '(font, text_lines, font_size) :=
    _find_optimal_font_size title text_area_width text_area_height in
  match font, text_lines with
  | None, _ | _, [] =>
      Raise (ValueError "Could not fit text in available space")
  | Some font, _ :: _ =>
      let line_height := int (inject_Z font_size * (12 # 10))%Q in
      let total_text_height := Z.of_nat (List.length text_lines) * line_height in
      let text_start_y :=
        text_margin_top + (text_area_height - total_text_height) / 2 in
      let canvas := _add_accent_bar canvas text_start_y accent_color in
      let '(canvas, _) :=
        fold_left (fun '(c, current_y) line =>
          (_draw_text_with_effects c (text_margin_left, current_y) line font
             "#FFFFFF" "#000000" 6,
           current_y + line_height))
          text_lines (canvas, text_start_y) in
      let canvas :=
        match logo_image with
        | Some (b :: bs) =>
            match _process_logo (b :: bs) with
            | Some logo => _add_logo_overlay canvas logo
            | None => canvas
            end
        | _ => canvas
        end in
      let timestamp :=
        match request_id with
        | Some (String c r) => String c r
        | _ => now
        end in
      let filename := (timestamp ++ "_thumbnail.jpg")%string in
      let file_path := (data_dir settings ++ "/" ++ filename)%string in
      jpeg_data <- _optimize_jpeg_size canvas (max_file_size_bytes settings) ;;
      Ok (mkThumbnail file_path jpeg_data canvas)
  end.

End Host.

End ThumbnailComposer.

Import ThumbnailComposer.

(** ** Vocabulary of the statements *)

(** A decoded RGB picture of the given size. *)
Definition decoded (data : string) (w h : Z) : Image :=
  mkImage (w, h) "RGB" false (Source data).

(** [scaled] keeps the proportions of [original] up to one pixel in the
    derived dimension: with [(w, h)] scaled to [(w', h')], the cross
    difference [|w' * h - h' * w|] is at most the longer side, which is
    [|h' - w' * h / w| <= 1] for a landscape original and
    [|w' - h' * w / h| <= 1] otherwise. *)
Definition aspect_within_pixel (original scaled : Z * Z) : Prop :=
  Z.abs (fst scaled * snd original - snd scaled * fst original)
  <= Z.max (fst original) (snd original).

(** The size the source was scaled to, and the crop box applied to the
    scaled picture, read off a normalised canvas. *)
Definition scaled_size (canvas : Image) : option (Z * Z) :=
  match raster canvas with
  | Crop (Resize _ sz) _ => Some sz
  | Resize _ sz => Some sz
  | _ => None
  end.

Definition crop_box (canvas : Image) : option (Z * Z * Z * Z) :=
  match raster canvas with
  | Crop _ box => Some box
  | _ => None
  end.

(** *** Word wrap *)

Definition join_space (g : list string) : string := String.concat " " g.

Fixpoint no_space (s : string) : bool :=
  match s with
  | EmptyString => true
  | String c s' => negb (isspace c) && no_space s'
  end.

Definition wordlike (w : string) : Prop :=
  is_empty w = false /\ no_space w = true.

Definition line_width (font : Font) (s : string) : Z :=
  fst (_calculate_text_size s font).

Fixpoint greedy_from (font : Font) (max_width : Z) (cur : string)
    (ws : list string) : list string :=
  match ws with
  | [] => [cur]
  | w :: ws' =>
      if line_width font (cur ++ " " ++ w) <=? max_width
      then greedy_from font max_width (cur ++ " " ++ w)%string ws'
      else cur :: greedy_from font max_width w ws'
  end.

Definition greedy_wrap (font : Font) (max_width : Z) (ws : list string)
    : list string :=
  match ws with
  | [] => []
  | w :: ws' => greedy_from font max_width w ws'
  end.

Definition width_monotone (font : Font) : Prop :=
  forall a b : string,
    line_width font a <= line_width font (a ++ " " ++ b)
    /\ line_width font b <= line_width font (a ++ " " ++ b).

(** The wrap loop on groups of words instead of joined lines. *)
Definition groups_step (font : Font) (max_width : Z)
    (st : list (list string) * list string) (w : string)
    : list (list string) * list string :=
  let '(gs, g) := st in
  if line_width font (join_space (g ++ [w])) <=? max_width
  then (gs, g ++ [w])
  else match g with
       | [] => (gs ++ [[w]], [])
       | _ :: _ => (gs ++ [g], [w])
       end.

Definition groups_finish (st : list (list string) * list string)
    : list (list string) :=
  let '(gs, g) := st in
  match g with
  | [] => gs
  | _ :: _ => gs ++ [g]
  end.

Definition wrap_groups (font : Font) (max_width : Z) (ws : list string)
    : list (list string) :=
  groups_finish (fold_left (groups_step font max_width) ws ([], [])).

(** The [if current_line: lines.append(current_line)] after the loop. *)
Definition wrap_finish (st : list string * string) : list string :=
  let '(lines, current_line) := st in
  if negb (is_empty current_line) then lines ++ [current_line] else lines.

(** A word wider than [max_width] is the only word of its group. *)
Definition overlong_alone (font : Font) (max_width : Z) (g : list string) : Prop :=
  forall w, In w g -> max_width < line_width font w -> g = [w].

(** *** Font-size search *)

(** The [text_area_height] of [compose_thumbnail]. *)
Definition text_area_height : Z := canvas_height - text_margin_top * 2.

(** Size [s] fits: a font loads and the stacked lines, with the 1.2 line
    spacing, stay within [max_height]. *)
Definition fits_height (get_font : Z -> option Font) (text : string)
    (max_width max_height : Z) (s : Z) : bool :=
  match get_font s with
  | None => false
  | Some font =>
      Qle_bool
        (inject_Z (Z.of_nat (List.length (_wrap_text_to_fit text font max_width))
                   * snd (_calculate_text_size "Ay" font)) * (12 # 10))%Q
        (inject_Z max_height)
  end.

(** The layout recorded when size [s] fits. *)
Definition layout_at (get_font : Z -> option Font) (text : string)
    (max_width : Z) (s : Z) : Layout :=
  match get_font s with
  | None => (None, [], s)
  | Some font => (Some font, _wrap_text_to_fit text font max_width, s)
  end.

Definition layout_size (l : Layout) : Z := snd l.
Definition layout_lines (l : Layout) : list string := snd (fst l).
Definition layout_font (l : Layout) : option Font := fst (fst l).

(** Fitting is downward closed on the searched range. *)
Definition fits_downward (get_font : Z -> option Font) (text : string)
    (max_width max_height : Z) : Prop :=
  forall s s', 20 <= s <= s' -> s' <= 120 ->
    fits_height get_font text max_width max_height s' = true ->
    fits_height get_font text max_width max_height s = true.

(** [l] is the layout at the largest fitting size of the range. *)
Definition largest_fitting (get_font : Z -> option Font) (text : string)
    (max_width max_height : Z) (l : Layout) : Prop :=
  20 <= layout_size l <= 120
  /\ fits_height get_font text max_width max_height (layout_size l) = true
  /\ (forall s, 20 <= s <= 120 ->
        fits_height get_font text max_width max_height s = true ->
        s <= layout_size l)
  /\ l = layout_at get_font text max_width (layout_size l).

(** *** Logo processor and encoder *)

(** The [max_height] of [_process_logo]: 15% of the canvas height. *)
Definition logo_max_height : Z := int (inject_Z canvas_height * (15 # 100))%Q.

(** The size [_process_logo] asks [resize] for, from the logo's size. *)
Definition logo_target (w h : Z) : Z * Z :=
  if h <? w
  then (Z.min 230 w, Z.min 230 w * h / w)
  else (Z.min 108 h * w / h, Z.min 108 h).

Definition to_rgba (logo : Image) : Image :=
  if String.eqb (mode logo) "RGBA" then logo else convert logo "RGBA".

Definition jpeg_size (save_jpeg : Image -> Z -> list byte) (image : Image)
    (quality : Z) : Z :=
  Z.of_nat (List.length (save_jpeg image quality)).

(** *** Concrete hosts used in examples *)

(** A monospace face: every glyph is [s] pixels wide, a line is [s]
    pixels tall. *)
Definition mono_font (s : Z) : Font :=
  mkFont (fun t => (0, 0, s * Z.of_nat (String.length t), s)).

Definition mono (s : Z) : option Font := Some (mono_font s).

(** Twenty-six words of fifteen letters. *)
Definition long_title : string :=
  String.concat " " (repeat "aaaaaaaaaaaaaaa"%string 26).

(** A decoder that recognises nothing. *)
Definition no_decoder (data : list byte) : result Image :=
  Raise UnidentifiedImageError.

(** A decoder that always yields the same picture. *)
Definition fixed_decoder (logo : Image) (data : list byte) : result Image :=
  Ok logo.

(** A face that grows with its size except at size [d], where its lines
    are 1000 pixels tall. *)
Definition dip_at (d : Z) (s : Z) : option Font :=
  Some (mkFont (fun t =>
          (0, 0, s * Z.of_nat (String.length t), if s =? d then 1000 else s))).

(** An encoder whose output has as many bytes as the quality asked for. *)
Definition flat_encoder (image : Image) (quality : Z) : list byte :=
  repeat x00 (Z.to_nat quality).

(** *** Drawing *)

(** [draw.text] once per entry of [draws], in order, with one text and
    font. *)
Definition paint (r : Raster) (text : string) (font : Font)
    (draws : list (Z * Z * string)) : Raster :=
  fold_left (fun r d => DrawText r (fst d) text font (snd d)) draws r.

(** The offsets of the outline: the square of side [2 * stroke_width + 1]
    around the origin, row by row, without the origin. *)
Definition stroke_offsets (stroke_width : Z) : list (Z * Z) :=
  filter (fun d => negb ((fst d =? 0) && (snd d =? 0)))
    (list_prod (range (- stroke_width) (stroke_width + 1))
               (range (- stroke_width) (stroke_width + 1))).

(** The canvas with its pixels replaced: drawing keeps size and mode. *)
Definition with_raster (canvas : Image) (r : Raster) : Image :=
  mkImage (size canvas) (mode canvas) (has_transparency canvas) r.

(** A group is one word or measures at most [max_width] when joined. *)
Definition single_or_fits (font : Font) (max_width : Z) (g : list string)
    : Prop :=
  (exists w, g = [w]) \/ line_width font (join_space g) <= max_width.

(** ** More of Python's [str] and [list] *)

Module PyStr.

(** [len(s)] *)
Definition len (s : string) : Z := Z.of_nat (String.length s).

(** [str(n)] for an integer. *)
Definition str_int (n : Z) : string := NilZero.string_of_int (Z.to_int n).

(** [sub in s] *)
Fixpoint contains (sub s : string) : bool :=
  if String.prefix sub s then true
  else match s with
       | EmptyString => false
       | String _ s' => contains sub s'
       end.

(** [s.endswith(suffix)] *)
Fixpoint endswith (s suffix : string) : bool :=
  if String.eqb s suffix then true
  else match s with
       | EmptyString => false
       | String _ s' => endswith s' suffix
       end.

(** [s.lstrip()], [s.rstrip()] and [s.strip()] *)
Fixpoint lstrip (s : string) : string :=
  match s with
  | EmptyString => EmptyString
  | String c s' => if isspace c then lstrip s' else s
  end.

Fixpoint rstrip (s : string) : string :=
  match s with
  | EmptyString => EmptyString
  | String c s' =>
      let r := rstrip s' in
      if is_empty r && isspace c then EmptyString else String c r
  end.

Definition strip (s : string) : string := rstrip (lstrip s).

(** [s[:n]]: the first [n] characters, or all but the last [-n] when [n]
    is negative. *)
Definition slice_to (s : string) (n : Z) : string :=
  if n <? 0
  then String.substring 0 (Z.to_nat (len s + n)) s
  else String.substring 0 (Z.to_nat n) s.

(** [l[:n]] on a list. *)
Definition take {A : Type} (l : list A) (n : Z) : list A :=
  if n <? 0
  then firstn (Z.to_nat (Z.of_nat (List.length l) + n)) l
  else firstn (Z.to_nat n) l.

(** The last component of a path that does not end in a slash
    ([Path.name]). *)
Fixpoint name_from (acc s : string) : string :=
  match s with
  | EmptyString => acc
  | String c s' =>
      if Ascii.eqb c "/" then name_from EmptyString s'
      else name_from (acc ++ String c EmptyString) s'
  end.

Definition path_name (p : string) : string := name_from EmptyString p.

(** Every character of [s] satisfies [p]. *)
Fixpoint all_chars (p : ascii -> bool) (s : string) : bool :=
  match s with
  | EmptyString => true
  | String c s' => p c && all_chars p s'
  end.

End PyStr.

(** ** OpenAIImageService (services/openai_client.py) *)

Module OpenAIImageService.

Import PyStr.

(** What the calls of the service can raise. *)
Inductive failure : Type :=
| Builtin (e : exn)
| HTTPError (msg : string)
| LookupError (msg : string)
| Exception (msg : string).

Inductive outcome (A : Type) : Type :=
| Returned (a : A)
| Raised (e : failure).

Arguments Returned {A} a.
Arguments Raised {A} e.

Definition base_prompt : string :=
  ("Vibrant YouTube thumbnail background, 16:9 aspect ratio, "
   ++ "strong focal composition with clear space on the left side for text overlay, "
   ++ "cinematic lighting, bold contrast, high saturation, "
   ++ "professional graphic design style, no text or logos, "
   ++ "visually striking and attention-grabbing")%string.

Definition _build_prompt (topic : string) : string :=
  let topic_prompt := (", related to: " ++ strip topic)%string in
  let full_prompt := (base_prompt ++ topic_prompt)%string in
  if 1000 <? len full_prompt
  then
    let available_chars := 1000 - len base_prompt - 20 in
    let truncated_topic := slice_to (strip topic) available_chars in
    (base_prompt ++ ", related to: " ++ truncated_topic)%string
  else full_prompt.

Section Service.

(** [self.settings.openai_image_size] *)
Variable openai_image_size : string.
(** [Image.open(BytesIO(data))] *)
Variable Image_open : list byte -> result Image.
(** [str(e)] for an exception that carries no message of its own here. *)
Variable describe : exn -> string.
Variable describe_failure : failure -> string.
(** The HTTP side: [_make_api_request], the lookup
    [response_data["data"][0]["url"]] and [_download_image]. *)
Variable response_data : Type.
Variable _make_api_request : string -> string -> outcome response_data.
Variable image_url_of : response_data -> outcome string.
Variable _download_image : string -> outcome (list byte).

(** [str(e)] *)
Definition str_exn (e : exn) : string :=
  match e with
  | ValueError msg => msg
  | OSError msg => msg
  | _ => describe e
  end.

Definition _validate_and_convert_image (image_data : list byte) : result Image :=
  match
    (image <- Image_open image_data ;;
     if (width image <? 512) || (height image <? 512)
     then Raise (ValueError ("Image too small: " ++ str_int (width image)
                             ++ "x" ++ str_int (height image)))
     else
       let image :=
         if negb (String.eqb (mode image) "RGB")
         then convert image "RGB"
         else image in
       Ok image)
  with
  | Ok image => Ok image
  | Raise e => Raise (ValueError ("Invalid image data: " ++ str_exn e))
  end.

(** The body of the [try] of one attempt of [generate_background]. *)
Definition attempt (prompt size : string) : outcome Image :=
  match _make_api_request prompt size with
  | Raised e => Raised e
  | Returned response =>
      match image_url_of response with
      | Raised e => Raised e
      | Returned image_url =>
          match _download_image image_url with
          | Raised e => Raised e
          | Returned image_data =>
              match _validate_and_convert_image image_data with
              | Ok image => Returned image
              | Raise e => Raised (Builtin e)
              end
          end
      end
  end.

(** The [for attempt, size in enumerate(size_attempts, 1)] loop: the
    first image returned, or the last error. *)
Fixpoint try_sizes (prompt : string) (sizes : list string)
    (last_error : option failure) : Image + option failure :=
  match sizes with
  | [] => inr last_error
  | size :: rest =>
      match attempt prompt size with
      | Returned image => inl image
      | Raised e => try_sizes prompt rest (Some e)
      end
  end.

Definition generate_background (topic : string) : outcome Image :=
  if is_empty topic || (len (strip topic) <? 3)
  then Raised (Builtin (ValueError "Topic must be at least 3 characters long"))
  else
    let prompt := _build_prompt topic in
    let size_attempts := [openai_image_size; "1536x864"; "1024x1024"]%string in
    match try_sizes prompt size_attempts None with
    | inl image => Returned image
    | inr last_error =>
        let error_msg :=
          ("Failed to generate background after "
           ++ str_int (Z.of_nat (List.length size_attempts)) ++ " attempts")%string in
        let error_msg :=
          match last_error with
          | Some e => (error_msg ++ ". Last error: " ++ describe_failure e)%string
          | None => error_msg
          end in
        Raised (Exception error_msg)
    end.

End Service.

End OpenAIImageService.

(** ** models.py: the response of the generation route *)

Module Models.

Record ThumbnailResponse : Type := mkThumbnailResponse {
  filename : string;
  width : Z;
  height : Z;
  size_bytes : Z;
  url : string
}.

(** The validator of [size_bytes]. *)
Definition validate_size_limit (v : Z) : result Z :=
  let max_size := 2 * 1024 * 1024 in
  if max_size <? v
  then Raise (ValueError ("File size " ++ PyStr.str_int v
                          ++ " bytes exceeds 2MB limit"))
  else Ok v.

(** [ThumbnailResponse(filename=..., ...)]: construction runs the
    validator. *)
Definition new_ThumbnailResponse (filename : string) (width height size_bytes : Z)
    (url : string) : result ThumbnailResponse :=
  size_bytes <- validate_size_limit size_bytes ;;
  Ok (mkThumbnailResponse filename width height size_bytes url).

(** [ThumbnailListItem] and [ThumbnailListResponse]: no validators. *)
Record ThumbnailListItem : Type := mkThumbnailListItem {
  item_filename : string;
  item_size_bytes : Z;
  created_at : option string
}.

Record ThumbnailListResponse : Type := mkThumbnailListResponse {
  thumbnails : list ThumbnailListItem;
  total_count : Z
}.

End Models.

(** ** routes/thumbnails.py *)

Module Routes.

Import PyStr.

(** What an endpoint gives back: its value, or [raise HTTPException]. *)
Inductive response (A : Type) : Type :=
| Return (a : A)
| HTTPException (status_code : Z) (detail : string).

Arguments Return {A} a.
Arguments HTTPException {A} status_code detail.

Record UploadFile : Type := mkUploadFile {
  upload_filename : string;
  content_type : string;
  content : list byte
}.

(** [os.stat_result], as far as the routes read it. *)
Record stat_result : Type := mkStat {
  st_mtime : Q;
  st_size : Z
}.

(** [list.sort(key=..., reverse=True)] on the keys already computed:
    largest key first, elements of equal key in their original order. *)
Fixpoint insert_desc {A : Type} (k : Q) (x : A) (l : list (Q * A))
    : list (Q * A) :=
  match l with
  | [] => [(k, x)]
  | (k', y) :: l' =>
      if Qle_bool k' k then (k, x) :: l else (k', y) :: insert_desc k x l'
  end.

Definition sort_desc {A : Type} (l : list (Q * A)) : list (Q * A) :=
  fold_right (fun kx sorted => insert_desc (fst kx) (snd kx) sorted) [] l.

(** The keys of a sort, computed for every element before any comparison;
    [None] when a key raises. *)
Fixpoint sort_keys {A : Type} (key : A -> option Q) (l : list A)
    : option (list (Q * A)) :=
  match l with
  | [] => Some []
  | x :: l' =>
      match key x, sort_keys key l' with
      | Some k, Some keyed => Some ((k, x) :: keyed)
      | _, _ => None
      end
  end.

Record FileResponse : Type := mkFileResponse {
  path : string;
  media_type : string;
  headers : list (string * string)
}.

Section Endpoints.

Variable settings : Settings.
(** The composer's host. *)
Variable get_font : Z -> option Font.
Variable Image_open : list byte -> result Image.
Variable save_jpeg : Image -> Z -> list byte.
Variable now : string.
(** [openai_service.generate_background] *)
Variable generate_background : string -> OpenAIImageService.outcome Image.
(** [datetime.now().strftime("%Y%m%d_%H%M%S")] *)
Variable request_stamp : string.
(** The file system: [Path.exists], [Path.is_file], and whether
    [file_path.resolve().relative_to(data_dir.resolve())] succeeds. *)
Variable path_exists : string -> bool.
Variable path_is_file : string -> bool.
Variable resolves_inside : string -> string -> bool.
(** [settings.max_thumbnails_list] *)
Variable max_thumbnails_list : Z.
(** [data_dir.exists()]; [data_dir.glob("*_thumbnail.jpg")], [None] when
    it raises; [Path.stat] as the sort sees it and as the loop sees it
    later, [None] when it raises; and
    [datetime.fromtimestamp(t).isoformat()], [None] when it raises. *)
Variable data_dir_exists : bool.
Variable glob : option (list string).
Variable stat_for_sort : string -> option stat_result.
Variable stat_for_item : string -> option stat_result.
Variable isoformat : Q -> option string.

Definition generate_thumbnail (title topic accent_color : string)
    (logo : option UploadFile) : response Models.ThumbnailResponse :=
  let request_id := request_stamp in
  let checked_logo : response (option (list byte)) :=
    match logo with
    | Some logo =>
        if negb (existsb (String.eqb (content_type logo))
                   ["image/png"; "image/jpeg"]%string)
        then HTTPException 400 "Logo must be PNG or JPEG format"
        else
          let logo_content := content logo in
          if 2 * 1024 * 1024 <? Z.of_nat (List.length logo_content)
          then HTTPException 400 "Logo file size must be ≤ 2MB"
          else Return (Some logo_content)
    | None => Return None
    end in
  match checked_logo with
  | HTTPException status_code detail => HTTPException status_code detail
  | Return logo_image =>
      match generate_background topic with
      | OpenAIImageService.Raised _ =>
          HTTPException 502
            "Failed to generate background image. Please try again."
      | OpenAIImageService.Returned background_image =>
          match compose_thumbnail settings get_font Image_open save_jpeg now
                  background_image title accent_color logo_image
                  (Some request_id) with
          | Raise _ =>
              HTTPException 500 "Failed to compose thumbnail. Please try again."
          | Ok thumbnail =>
              let name := path_name (file_path thumbnail) in
              let st_size := Z.of_nat (List.length (file_bytes thumbnail)) in
              match Models.new_ThumbnailResponse name 1280 720 st_size
                      ("/api/files/" ++ name) with
              | Raise _ =>
                  HTTPException 500
                    "An unexpected error occurred during thumbnail generation"
              | Ok r => Return r
              end
          end
      end
  end.

Definition serve_thumbnail (filename : string) : response FileResponse :=
  if is_empty filename || contains ".." filename || contains "/" filename
     || contains "\" filename
  then HTTPException 400 "Invalid filename"
  else if negb (endswith filename "_thumbnail.jpg")
  then HTTPException 400 "File must be a thumbnail image"
  else
    let file_path := (data_dir settings ++ "/" ++ filename)%string in
    if negb (path_exists file_path) || negb (path_is_file file_path)
    then HTTPException 404 "Thumbnail not found"
    else if negb (resolves_inside file_path (data_dir settings))
    then HTTPException 400 "Invalid file path"
    else
      Return (mkFileResponse file_path "image/jpeg"
                [("Content-Disposition", "inline; filename=" ++ filename);
                 ("Cache-Control", "public, max-age=31536000")]%string).

(** One round of the loop of [list_thumbnails]: the item of a file, or
    nothing when the [try] block raises. *)
Definition list_item (file_path : string) : list Models.ThumbnailListItem :=
  match stat_for_item file_path with
  | Some file_stats =>
      match isoformat (st_mtime file_stats) with
      | Some created_at =>
          [Models.mkThumbnailListItem (path_name file_path)
             (st_size file_stats) (Some created_at)]
      | None => []
      end
  | None => []
  end.

Definition list_thumbnails (limit : Z)
    : response Models.ThumbnailListResponse :=
  let limit := Z.min limit max_thumbnails_list in
  if negb data_dir_exists
  then Return (Models.mkThumbnailListResponse [] 0)
  else
    match glob with
    | None => HTTPException 500 "Failed to retrieve thumbnail list"
    | Some thumbnail_files =>
        match sort_keys (fun f => option_map st_mtime (stat_for_sort f))
                thumbnail_files with
        | None => HTTPException 500 "Failed to retrieve thumbnail list"
        | Some keyed =>
            let thumbnail_files := map snd (sort_desc keyed) in
            let thumbnails := flat_map list_item (take thumbnail_files limit) in
            Return (Models.mkThumbnailListResponse thumbnails
                      (Z.of_nat (List.length thumbnail_files)))
        end
    end.

End Endpoints.

End Routes.

(** *** Concrete hosts for the service and the routes *)

(** An image service whose every request succeeds with one picture. *)
Definition steady_request (prompt size : string)
    : OpenAIImageService.outcome string :=
  OpenAIImageService.Returned ("https://images.example/" ++ size)%string.

Definition steady_url (response : string) : OpenAIImageService.outcome string :=
  OpenAIImageService.Returned response.

Definition steady_download (url : string)
    : OpenAIImageService.outcome (list byte) :=
  OpenAIImageService.Returned [x00].

Definition plain_describe (e : exn) : string := "error".

Definition plain_describe_failure (e : OpenAIImageService.failure) : string :=
  "error".

Definition steady_background (topic : string)
    : OpenAIImageService.outcome Image :=
  OpenAIImageService.generate_background "1536x864"
    (fixed_decoder (decoded "bg" 1536 864)) plain_describe
    plain_describe_failure string steady_request steady_url steady_download
    topic.

(** A character [strftime("%Y%m%d_%H%M%S")] can produce: a digit or an
    underscore. *)
Definition is_stamp_char (c : ascii) : bool :=
  let n := nat_of_ascii c in
  ((48 <=? n) && (n <=? 57) || (n =? 95))%nat.

(** A file system that holds every path, inside the data directory. *)
Definition every_path (p : string) : bool := true.
Definition always_inside (p dir : string) : bool := true.

(** An encoder whose every output is three mebibytes long. *)
Definition heavy_encoder (image : Image) (quality : Z) : list byte :=
  repeat x00 (Z.to_nat 3145728).

(** Largest key first. *)
Definition desc {A : Type} (p q : Q * A) : Prop := (fst q <= fst p)%Q.

(** [g] was not modified after [f], by the [stat] given. *)
Definition not_newer (stat : string -> option Routes.stat_result)
    (g f : string) : Prop :=
  exists sf sg,
    stat f = Some sf /\ stat g = Some sg
    /\ (Routes.st_mtime sg <= Routes.st_mtime sf)%Q.

(** How many elements [l[:n]] has. *)
Definition slice_count (len n : Z) : Z :=
  if n <? 0 then Z.max 0 (len + n) else Z.min n len.

(** A data directory of three thumbnails, the second one the newest. *)
Definition three_files : option (list string) :=
  Some ["data/a_thumbnail.jpg"; "data/b_thumbnail.jpg";
        "data/c_thumbnail.jpg"]%string.

Definition three_stats (file : string) : option Routes.stat_result :=
  if String.eqb file "data/a_thumbnail.jpg" then Some (Routes.mkStat 10 100)
  else if String.eqb file "data/b_thumbnail.jpg"
  then Some (Routes.mkStat 30 300)
  else Some (Routes.mkStat 20 200).

Definition plain_isoformat (t : Q) : option string := Some "2024-01-01T00:00:00"%string.

(** * Canvas normaliser *)

Section Normaliser.

Lemma target_ratio_value :
  truediv canvas_width canvas_height = Ok (1280 # 720).
Proof. reflexivity. Qed.

Lemma bg_ratio_value (w h : Z) :
  0 < h -> truediv w h = Ok (w # Z.to_pos h).
Proof.
  intros Hh. unfold truediv.
  destruct (Z.eqb_spec h 0) as [->|_]; [lia|].
  rewrite Z.sgn_pos, Z.mul_1_l, Z.abs_eq by lia. reflexivity.
Qed.

Lemma int_times_target (h : Z) :
  0 <= h -> int (inject_Z h * (1280 # 720))%Q = h * 1280 / 720.
Proof.
  intros Hh. unfold int. cbn [Qmult Qnum Qden inject_Z Pos.mul].
  rewrite Z.quot_div_nonneg by lia. reflexivity.
Qed.

Lemma int_over_target (w : Z) :
  0 <= w -> int (inject_Z w / (1280 # 720))%Q = w * 720 / 1280.
Proof.
  intros Hw. unfold int, Qdiv. cbn [Qinv Qmult Qnum Qden inject_Z Pos.mul].
  rewrite Z.quot_div_nonneg by lia. reflexivity.
Qed.

(** The two tests of the normaliser, on integers. *)
Lemma ratio_close_iff (w h : Z) :
  0 < h ->
  Qltb (Qabs ((w # Z.to_pos h) - (1280 # 720))%Q) (1 # 100) = true
  <-> 100 * Z.abs (720 * w - 1280 * h) < 720 * h.
Proof.
  intros Hh. unfold Qltb, Qle_bool. rewrite negb_true_iff, Z.leb_gt.
  cbn [Qminus Qplus Qopp Qabs Qnum Qden].
  rewrite Pos2Z.inj_mul, Z2Pos.id by lia.
  replace (w * 720 + -1280 * h) with (720 * w - 1280 * h) by lia.
  lia.
Qed.

Lemma ratio_wider_iff (w h : Z) :
  0 < h ->
  Qltb (1280 # 720) (w # Z.to_pos h) = true <-> 1280 * h < 720 * w.
Proof.
  intros Hh. unfold Qltb, Qle_bool. rewrite negb_true_iff, Z.leb_gt.
  cbn [Qnum Qden]. rewrite Z2Pos.id by lia. lia.
Qed.

(** What the normaliser does, case by case.  When the ratios are within
    the tolerance the source is resized to the canvas.  Otherwise the size
    the source is scaled to comes from one source dimension and the target
    ratio alone, and the crop box is centred on the scaled size. *)
Lemma resize_background_cases (background : Image) :
  0 < width background -> 0 < height background ->
  let w := width background in
  let h := height background in
  if 100 * Z.abs (720 * w - 1280 * h) <? 720 * h
  then _resize_background_to_canvas background
       = resize background (1280, 720)
  else if 1280 * h <? 720 * w
  then
    let new_width := h * 1280 / 720 in
    let left_ := (new_width - 1280) / 2 in
    _resize_background_to_canvas background
    = (scaled <- resize background (new_width, 720) ;;
       crop scaled (left_, 0, left_ + 1280, 720))
  else
    let new_height := w * 720 / 1280 in
    let top := (new_height - 720) / 2 in
    _resize_background_to_canvas background
    = (scaled <- resize background (1280, new_height) ;;
       crop scaled (0, top, 1280, top + 720)).
Proof.
  destruct background as [[w h] m t r]. unfold width, height. cbn [size fst snd].
  intros Hw Hh. cbn zeta. unfold _resize_background_to_canvas. cbn [size].
  rewrite target_ratio_value, (bg_ratio_value w h) by lia. cbn [bind].
  pose proof (ratio_close_iff w h Hh) as Hclose.
  pose proof (ratio_wider_iff w h Hh) as Hwider.
  destruct (Z.ltb_spec (100 * Z.abs (720 * w - 1280 * h)) (720 * h)) as [Hc|Hc].
  - apply Hclose in Hc. rewrite Hc. reflexivity.
  - destruct (Qltb (Qabs _) _).
    { assert (100 * Z.abs (720 * w - 1280 * h) < 720 * h) by now apply Hclose.
      lia. }
    destruct (Z.ltb_spec (1280 * h) (720 * w)) as [Hd|Hd].
    + apply Hwider in Hd. rewrite Hd.
      rewrite int_times_target by lia. reflexivity.
    + destruct (Qltb (1280 # 720) _).
      { assert (1280 * h < 720 * w) by now apply Hwider. lia. }
      rewrite int_over_target by lia. reflexivity.
Qed.

End Normaliser.

(** * Strings and word wrap *)

Section StringFacts.

Lemma append_empty_r (s : string) : (s ++ EmptyString)%string = s.
Proof. induction s; cbn; congruence. Qed.

Lemma append_assoc' (a b c : string) :
  ((a ++ b) ++ c)%string = (a ++ (b ++ c))%string.
Proof. induction a; cbn; congruence. Qed.

Lemma is_empty_append (a b : string) :
  is_empty (a ++ b) = is_empty a && is_empty b.
Proof. destruct a; reflexivity. Qed.

Lemma no_space_append (a b : string) :
  no_space (a ++ b) = no_space a && no_space b.
Proof.
  induction a as [|c a IH]; cbn; [reflexivity|].
  rewrite IH. now rewrite andb_assoc.
Qed.

Lemma split_from_wordlike (s : string) :
  forall acc, no_space acc = true -> Forall wordlike (split_from acc s).
Proof.
  induction s as [|c s IH]; intros acc Hacc; cbn.
  - destruct (is_empty acc) eqn:E; constructor; [split; assumption | constructor].
  - destruct (isspace c) eqn:Ec.
    + destruct (is_empty acc) eqn:E.
      * apply IH. reflexivity.
      * constructor; [split; assumption | apply IH; reflexivity].
    + apply IH. rewrite no_space_append, Hacc. cbn. now rewrite Ec.
Qed.

Lemma split_wordlike (text : string) : Forall wordlike (split text).
Proof. apply split_from_wordlike. reflexivity. Qed.

Lemma split_from_word (w : string) :
  no_space w = true ->
  forall acc rest,
    split_from acc (w ++ rest) = split_from (acc ++ w) rest.
Proof.
  induction w as [|c w IH]; intros Hw acc rest; cbn.
  - now rewrite append_empty_r.
  - cbn in Hw. apply andb_prop in Hw as [Hc Hw].
    apply negb_true_iff in Hc. rewrite Hc.
    rewrite IH by assumption. now rewrite append_assoc'.
Qed.

Lemma split_join (g : list string) :
  Forall wordlike g -> split (join_space g) = g.
Proof.
  unfold split, join_space.
  induction g as [|w g IH]; intros Hg; [reflexivity|].
  inversion Hg as [|? ? [Hne Hns] Hg']; subst.
  destruct g as [|v g].
  - cbn. rewrite <- (append_empty_r w) at 1.
    rewrite split_from_word by assumption. cbn. now rewrite Hne.
  - change (String.concat " " (w :: v :: g))
      with (w ++ String " " (String.concat " " (v :: g)))%string.
    rewrite split_from_word by assumption. cbn [append split_from].
    change (isspace " ") with true. cbn match. rewrite Hne.
    f_equal. apply IH. assumption.
Qed.

Lemma join_snoc (g : list string) (w : string) :
  g <> [] -> join_space (g ++ [w]) = (join_space g ++ " " ++ w)%string.
Proof.
  unfold join_space. induction g as [|v g IH]; intros Hg; [congruence|].
  destruct g as [|u g].
  - reflexivity.
  - change (String.concat " " ((v :: u :: g) ++ [w]))
      with (v ++ " " ++ String.concat " " ((u :: g) ++ [w]))%string.
    rewrite IH by congruence.
    change (String.concat " " (v :: u :: g))
      with (v ++ " " ++ String.concat " " (u :: g))%string.
    now rewrite !append_assoc'.
Qed.

Lemma join_is_empty (g : list string) :
  Forall wordlike g -> is_empty (join_space g) = match g with [] => true | _ => false end.
Proof.
  intros Hg. destruct g as [|w g]; [reflexivity|].
  inversion Hg as [|? ? [Hne _] _]; subst.
  unfold join_space. destruct g.
  - assumption.
  - cbn [String.concat]. rewrite is_empty_append, Hne. reflexivity.
Qed.

End StringFacts.

Section WrapFacts.

Variable font : Font.
Variable max_width : Z.

Lemma wrap_step_groups gs g w :
  Forall wordlike g -> wordlike w ->
  wrap_step font max_width (map join_space gs, join_space g) w
  = (map join_space (fst (groups_step font max_width (gs, g) w)),
     join_space (snd (groups_step font max_width (gs, g) w))).
Proof.
  intros Hg Hw. unfold wrap_step, groups_step.
  rewrite (join_is_empty g Hg). unfold line_width.
  destruct g as [|v g].
  - cbn [negb app]. change (join_space []) with EmptyString.
    change (join_space [w]) with w. cbn [append].
    destruct (_calculate_text_size w font) as [tw th]. cbn [fst].
    destruct (tw <=? max_width); cbn [fst snd]; [reflexivity|].
    now rewrite map_app.
  - cbn [negb]. rewrite (join_snoc (v :: g) w) by congruence.
    destruct (_calculate_text_size _ font) as [tw th]. cbn [fst].
    destruct (tw <=? max_width); cbn [fst snd].
    + now rewrite <- (join_snoc (v :: g) w) by congruence.
    + now rewrite map_app.
Qed.

Lemma groups_step_wordlike gs g w :
  Forall wordlike g -> wordlike w ->
  Forall wordlike (snd (groups_step font max_width (gs, g) w)).
Proof.
  intros Hg Hw. unfold groups_step.
  destruct (_ <=? _); [|destruct g]; cbn [snd]; auto.
  apply Forall_app. auto.
Qed.

Lemma fold_wrap_groups ws :
  Forall wordlike ws ->
  forall gs g, Forall wordlike g ->
  fold_left (wrap_step font max_width) ws (map join_space gs, join_space g)
  = (map join_space (fst (fold_left (groups_step font max_width) ws (gs, g))),
     join_space (snd (fold_left (groups_step font max_width) ws (gs, g)))).
Proof.
  induction 1 as [|w ws Hw Hws IH]; intros gs g Hg; [reflexivity|].
  cbn [fold_left]. rewrite wrap_step_groups by assumption.
  pose proof (groups_step_wordlike gs g w Hg Hw) as Hg'.
  destruct (groups_step font max_width (gs, g) w) as [gs' g'].
  cbn [fst snd] in *. now apply IH.
Qed.

Lemma fold_groups_wordlike ws :
  Forall wordlike ws ->
  forall gs g, Forall wordlike g ->
  Forall wordlike (snd (fold_left (groups_step font max_width) ws (gs, g))).
Proof.
  induction 1 as [|w ws Hw Hws IH]; intros gs g Hg; [assumption|].
  cbn [fold_left].
  pose proof (groups_step_wordlike gs g w Hg Hw) as Hg'.
  destruct (groups_step font max_width (gs, g) w) as [gs' g'].
  now apply IH.
Qed.

(** The lines are the joined groups. *)
Lemma wrap_is_joined_groups text :
  _wrap_text_to_fit text font max_width
  = map join_space (wrap_groups font max_width (split text)).
Proof.
  unfold _wrap_text_to_fit, wrap_groups.
  pose proof (split_wordlike text) as Hws.
  change ([] : list string, EmptyString)
    with (map join_space [], join_space []).
  rewrite (fold_wrap_groups _ Hws [] []) by constructor.
  pose proof (fold_groups_wordlike _ Hws [] [] (Forall_nil _)) as Hg.
  destruct (fold_left _ _ _) as [gs g]. cbn [fst snd] in *.
  rewrite (join_is_empty g Hg). unfold groups_finish.
  destruct g; cbn [negb]; [reflexivity|].
  now rewrite map_app.
Qed.

Lemma fold_groups_concat ws :
  forall gs g,
  let st := fold_left (groups_step font max_width) ws (gs, g) in
  (List.concat (fst st) ++ snd st = (List.concat gs ++ g) ++ ws)%list.
Proof.
  induction ws as [|w ws IH]; intros gs g; cbn [fold_left].
  - cbn. now rewrite app_nil_r.
  - cbn zeta in IH. unfold groups_step at 2 4.
    destruct (_ <=? _); [|destruct g as [|v g]]; rewrite IH.
    + now rewrite <- !app_assoc.
    + rewrite concat_app. cbn. now rewrite !app_nil_r, <- !app_assoc.
    + rewrite concat_app. cbn [List.concat]. rewrite !app_nil_r.
      now rewrite <- !app_assoc.
Qed.

Lemma fold_groups_nonempty ws :
  forall gs g, Forall (fun g => g <> []) gs ->
  Forall (fun g => g <> []) (fst (fold_left (groups_step font max_width) ws (gs, g))).
Proof.
  induction ws as [|w ws IH]; intros gs g Hgs; cbn [fold_left]; [assumption|].
  unfold groups_step at 2.
  destruct (_ <=? _); [|destruct g as [|v g]]; apply IH; auto;
    apply Forall_app; split; auto; constructor; auto; congruence.
Qed.

Lemma wrap_groups_concat ws :
  List.concat (wrap_groups font max_width ws) = ws.
Proof.
  unfold wrap_groups.
  pose proof (fold_groups_concat ws [] []) as H. cbn zeta in H.
  destruct (fold_left _ _ _) as [gs g]. cbn [fst snd List.concat app] in H.
  unfold groups_finish. destruct g.
  - now rewrite app_nil_r in H.
  - rewrite concat_app. cbn [List.concat]. now rewrite app_nil_r.
Qed.

Lemma wrap_groups_nonempty ws :
  Forall (fun g => g <> []) (wrap_groups font max_width ws).
Proof.
  unfold wrap_groups.
  pose proof (fold_groups_nonempty ws [] [] (Forall_nil _)) as H.
  destruct (fold_left _ _ _) as [gs g]. cbn [fst] in H.
  unfold groups_finish. destruct g; [assumption|].
  apply Forall_app. split; [assumption|]. constructor; [congruence|constructor].
Qed.

End WrapFacts.

(** * Font-size search *)

Section SearchFacts.

Variable get_font : Z -> option Font.
Variable text : string.
Variable max_width : Z.

Lemma search_loop_unfold max_height lo hi best :
  search_loop get_font text max_width max_height lo hi best
  = if lo <=? hi
    then
      let size := (lo + hi) / 2 in
      if fits_height get_font text max_width max_height size
      then search_loop get_font text max_width max_height (size + 1) hi
             (layout_at get_font text max_width size)
      else search_loop get_font text max_width max_height lo (size - 1) best
    else best.
Proof.
  rewrite search_loop_equation_1. unfold search_loop_unfold_clause_1.
  destruct (Z_le_gt_dec lo hi) as [Hle|Hgt].
  - destruct (Z.leb_spec lo hi); [|lia].
    cbn zeta. unfold fits_height, layout_at.
    destruct (get_font ((lo + hi) / 2)); reflexivity.
  - destruct (Z.leb_spec lo hi); [lia|reflexivity].
Qed.

Lemma midpoint_bounds lo hi : lo <= hi -> lo <= (lo + hi) / 2 <= hi.
Proof.
  intros H.
  split; [apply Z.div_le_lower_bound | apply Z.div_le_upper_bound]; lia.
Qed.

(** Where the loop stops: at some [s] between [lo - 1] and [hi]; nothing
    was recorded when [s = lo - 1], otherwise [s] fits and is the layout
    returned; the size above [s], if still in range, does not fit. *)
Lemma search_loop_spec max_height (n : nat) :
  forall lo hi best,
    hi - lo + 1 <= Z.of_nat n -> lo <= hi + 1 ->
    exists s,
      lo - 1 <= s <= hi
      /\ (s = lo - 1 ->
          search_loop get_font text max_width max_height lo hi best = best)
      /\ (lo <= s ->
          fits_height get_font text max_width max_height s = true
          /\ search_loop get_font text max_width max_height lo hi best
             = layout_at get_font text max_width s)
      /\ (s < hi ->
          fits_height get_font text max_width max_height (s + 1) = false).
Proof.
  induction n as [|n IH]; intros lo hi best Hn Hlo;
    rewrite search_loop_unfold.
  - destruct (Z.leb_spec lo hi); [lia|].
    exists hi. repeat split; intros; try lia.
  - destruct (Z.leb_spec lo hi) as [Hle|Hgt].
    2:{ exists hi. repeat split; intros; try lia. }
    cbn zeta. pose proof (midpoint_bounds lo hi Hle) as Hmid.
    set (mid := (lo + hi) / 2) in *.
    destruct (fits_height get_font text max_width max_height mid) eqn:Hfit.
    + destruct (IH (mid + 1) hi (layout_at get_font text max_width mid))
        as (s & Hs & Hnone & Hsome & Hnext); [lia|lia|].
      exists s. split; [lia|]. split; [intros; lia|]. split; [|exact Hnext].
      intros _. destruct (Z.eq_dec s mid) as [->|Hne].
      * split; [exact Hfit|]. apply Hnone. lia.
      * apply Hsome. lia.
    + destruct (IH lo (mid - 1) best)
        as (s & Hs & Hnone & Hsome & Hnext); [lia|lia|].
      exists s. split; [lia|]. split; [exact Hnone|]. split; [exact Hsome|].
      intros _. destruct (Z.eq_dec s (mid - 1)) as [->|Hne].
      * now replace (mid - 1 + 1) with mid by lia.
      * apply Hnext. lia.
Qed.

Lemma layout_at_size s : layout_size (layout_at get_font text max_width s) = s.
Proof. unfold layout_at. destruct (get_font s); reflexivity. Qed.

(** The returned size is the recorded one or lies in the range left. *)
Lemma search_loop_range max_height lo hi best :
  lo <= hi + 1 ->
  let r := search_loop get_font text max_width max_height lo hi best in
  r = best \/ lo <= layout_size r <= hi.
Proof.
  intros Hlo r.
  destruct (search_loop_spec max_height (Z.to_nat (hi - lo + 1)) lo hi best)
    as (s & Hs & Hnone & Hsome & _); [lia|lia|].
  destruct (Z.eq_dec s (lo - 1)) as [E|E].
  - left. now apply Hnone.
  - right. destruct Hsome as [_ Hr]; [lia|].
    subst r. rewrite Hr, layout_at_size. lia.
Qed.

Lemma fits_height_mono h1 h2 s :
  h1 <= h2 ->
  fits_height get_font text max_width h1 s = true ->
  fits_height get_font text max_width h2 s = true.
Proof.
  intros Hh. unfold fits_height. destruct (get_font s); [|easy].
  rewrite !Qle_bool_iff. intros H.
  eapply Qle_trans; [exact H|]. now rewrite <- Zle_Qle.
Qed.

Lemma search_loop_mono h1 h2 (n : nat) :
  h1 <= h2 ->
  forall lo hi best1 best2,
    hi - lo + 1 <= Z.of_nat n -> lo <= hi + 1 ->
    layout_size best1 <= layout_size best2 -> layout_size best2 <= lo ->
    layout_size (search_loop get_font text max_width h1 lo hi best1)
    <= layout_size (search_loop get_font text max_width h2 lo hi best2).
Proof.
  intros Hh. induction n as [|n IH]; intros lo hi best1 best2 Hn Hlo Hb Hb2;
    rewrite (search_loop_unfold h1), (search_loop_unfold h2).
  - destruct (Z.leb_spec lo hi); [lia|assumption].
  - destruct (Z.leb_spec lo hi) as [Hle|Hgt]; [|assumption].
    cbn zeta. pose proof (midpoint_bounds lo hi Hle) as Hmid.
    set (mid := (lo + hi) / 2) in *.
    destruct (fits_height get_font text max_width h1 mid) eqn:Hfit1.
    + rewrite (fits_height_mono h1 h2 mid Hh Hfit1).
      apply IH; try lia; rewrite layout_at_size; lia.
    + destruct (fits_height get_font text max_width h2 mid) eqn:Hfit2.
      * pose proof (search_loop_range h1 lo (mid - 1) best1) as R1.
        pose proof (search_loop_range h2 (mid + 1) hi
                      (layout_at get_font text max_width mid)) as R2.
        cbn zeta in R1, R2.
        destruct R1 as [-> | R1]; [lia| |]; destruct R2 as [-> | R2];
          try lia; rewrite ?layout_at_size; lia.
      * apply IH; lia.
Qed.

End SearchFacts.

(** * Greedy wrap *)

Section GreedyFacts.

Variable font : Font.
Variable max_width : Z.
Hypothesis Hmono : width_monotone font.

Lemma greedy_from_overlong w ws :
  max_width < line_width font w ->
  greedy_from font max_width w ws = w :: greedy_wrap font max_width ws.
Proof.
  intros Hw. destruct ws as [|v ws]; [reflexivity|]. cbn [greedy_from greedy_wrap].
  destruct (Hmono w v) as [H1 _].
  destruct (Z.leb_spec (line_width font (w ++ " " ++ v)) max_width); [lia|reflexivity].
Qed.

Lemma fold_wrap_greedy ws :
  Forall wordlike ws ->
  forall lines cur,
    wrap_finish (fold_left (wrap_step font max_width) ws (lines, cur))
    = (lines ++ (if is_empty cur then greedy_wrap font max_width ws
                 else greedy_from font max_width cur ws))%list.
Proof.
  induction 1 as [|w ws [Hne Hns] Hws IH]; intros lines cur.
  - cbn. destruct (is_empty cur); cbn; [now rewrite app_nil_r|reflexivity].
  - cbn [fold_left]. unfold wrap_step at 2.
    destruct cur as [|c cur]; cbn [is_empty negb append].
    + fold (line_width font w).
      destruct (_calculate_text_size w font) as [tw th] eqn:E.
      assert (Htw : line_width font w = tw) by (unfold line_width; now rewrite E).
      destruct (Z.leb_spec tw max_width) as [Hfit|Hover].
      * rewrite IH, Hne. reflexivity.
      * rewrite IH. cbn [is_empty greedy_wrap].
        rewrite greedy_from_overlong by lia.
        now rewrite <- app_assoc.
    + change (String c (cur ++ String " " w))
        with (String c cur ++ " " ++ w)%string.
      cbn [greedy_from].
      destruct (_calculate_text_size (String c cur ++ " " ++ w) font)
        as [tw th] eqn:E.
      assert (Htw : line_width font (String c cur ++ " " ++ w) = tw)
        by (unfold line_width; now rewrite E).
      rewrite Htw.
      destruct (Z.leb_spec tw max_width) as [Hfit|Hover].
      * rewrite IH. reflexivity.
      * rewrite IH, Hne. now rewrite <- app_assoc.
Qed.

Lemma wrap_refines_greedy text :
  _wrap_text_to_fit text font max_width
  = greedy_wrap font max_width (split text).
Proof.
  unfold _wrap_text_to_fit.
  pose proof (fold_wrap_greedy (split text) (split_wordlike text) [] EmptyString) as H.
  unfold wrap_finish in H.
  destruct (fold_left _ _ _) as [lines cur]. exact H.
Qed.

Lemma groups_step_alone gs g w :
  Forall (overlong_alone font max_width) gs ->
  overlong_alone font max_width g ->
  Forall (overlong_alone font max_width)
    (fst (groups_step font max_width (gs, g) w))
  /\ overlong_alone font max_width
       (snd (groups_step font max_width (gs, g) w)).
Proof.
  intros Hgs Hg. unfold groups_step.
  assert (Hone : forall v : string, overlong_alone font max_width [v]).
  { intros v u [<-|[]] _. reflexivity. }
  assert (Hnil : overlong_alone font max_width []) by (intros u []).
  destruct (Z.leb_spec (line_width font (join_space (g ++ [w]))) max_width)
    as [Hfit|Hover]; cbn [fst snd].
  - split; [assumption|]. destruct g as [|v g]; [apply Hone|].
    rewrite join_snoc in Hfit by congruence.
    destruct (Hmono (join_space (v :: g)) w) as [H1 H2].
    intros u Hu Hlong. exfalso.
    apply in_app_or in Hu as [Hu|[<-|[]]]; [|lia].
    pose proof (Hg u Hu Hlong) as E. rewrite E in H1, Hfit.
    change (join_space [u]) with u in H1, Hfit. lia.
  - destruct g as [|v g]; cbn [fst snd]; (split; [|auto]);
      apply Forall_app; split; auto.
Qed.

Lemma fold_groups_alone ws :
  forall gs g,
    Forall (overlong_alone font max_width) gs ->
    overlong_alone font max_width g ->
    Forall (overlong_alone font max_width)
      (fst (fold_left (groups_step font max_width) ws (gs, g)))
    /\ overlong_alone font max_width
         (snd (fold_left (groups_step font max_width) ws (gs, g))).
Proof.
  induction ws as [|w ws IH]; intros gs g Hgs Hg; cbn [fold_left]; [auto|].
  destruct (groups_step_alone gs g w Hgs Hg) as [H1 H2].
  destruct (groups_step font max_width (gs, g) w) as [gs' g'].
  now apply IH.
Qed.

Lemma wrap_groups_alone ws :
  Forall (overlong_alone font max_width) (wrap_groups font max_width ws).
Proof.
  unfold wrap_groups.
  destruct (fold_groups_alone ws [] []) as [H1 H2];
    [constructor | intros u [] |].
  destruct (fold_left _ _ _) as [gs g]. cbn [fst snd] in *.
  unfold groups_finish. destruct g; [assumption|].
  apply Forall_app. split; auto.
Qed.

End GreedyFacts.

(** * Logo processor *)

Section LogoFacts.

Variable Image_open : list byte -> result Image.

Lemma logo_max_width_value : logo_max_width = 230.
Proof. reflexivity. Qed.

Lemma logo_max_height_value : int (inject_Z canvas_height * (15 # 100))%Q = 108.
Proof. reflexivity. Qed.

Lemma int_over_ratio (n w h : Z) :
  0 <= n -> 0 < w -> 0 < h ->
  int (inject_Z n / (w # Z.to_pos h))%Q = n * h / w.
Proof.
  intros Hn Hw Hh. destruct w as [|pw|pw]; try lia.
  unfold int, Qdiv. cbn [Qinv Qmult Qnum Qden inject_Z].
  rewrite Pos.mul_1_l, Z2Pos.id by lia.
  apply Z.quot_div_nonneg; lia.
Qed.

Lemma int_times_ratio (n w h : Z) :
  0 <= n -> 0 < w -> 0 < h ->
  int (inject_Z n * (w # Z.to_pos h))%Q = n * w / h.
Proof.
  intros Hn Hw Hh.
  unfold int. cbn [Qmult Qnum Qden inject_Z].
  rewrite Pos.mul_1_l.
  rewrite Z.quot_div_nonneg by lia. now rewrite Z2Pos.id by lia.
Qed.

Lemma process_logo_body_value data logo :
  Image_open data = Ok logo -> 0 < width logo -> 0 < height logo ->
  process_logo_body Image_open data
  = resize (to_rgba logo) (logo_target (width logo) (height logo)).
Proof.
  intros Hopen Hw Hh. unfold process_logo_body. rewrite Hopen. cbn [bind].
  assert (E : (if negb (String.eqb (mode logo) "RGBA")
               then if (String.eqb (mode logo) "P" || String.eqb (mode logo) "LA")
                       && has_transparency logo
                    then convert logo "RGBA" else convert logo "RGBA"
               else logo) = to_rgba logo).
  { unfold to_rgba. destruct (String.eqb (mode logo) "RGBA"); cbn [negb];
      [reflexivity|]. now destruct (_ && _). }
  rewrite E. clear E.
  assert (Hsz : size (to_rgba logo) = (width logo, height logo)).
  { unfold to_rgba, width, height.
    destruct (String.eqb (mode logo) "RGBA"); cbn [convert size];
      now destruct (size logo). }
  rewrite Hsz. rewrite (bg_ratio_value _ _ Hh). cbn [bind].
  unfold logo_target. rewrite logo_max_width_value, logo_max_height_value.
  destruct (height logo <? width logo).
  - rewrite int_over_ratio by lia. reflexivity.
  - rewrite int_times_ratio by lia. reflexivity.
Qed.

Lemma logo_target_bounds w h :
  0 < w -> 0 < h ->
  let '(nw, nh) := logo_target w h in
  0 <= nw <= w /\ 0 <= nh <= h
  /\ aspect_within_pixel (w, h) (nw, nh)
  /\ (h < w -> nw = Z.min 230 w)
  /\ (w <= h -> nh = Z.min 108 h).
Proof.
  intros Hw Hh. unfold logo_target, aspect_within_pixel. cbn [fst snd].
  destruct (Z.ltb_spec h w) as [Hl|Hp].
  - set (nw := Z.min 230 w).
    assert (Hnw : 0 <= nw <= w) by (unfold nw; lia).
    pose proof (Z.div_mod (nw * h) w ltac:(lia)) as Hdm.
    pose proof (Z.mod_pos_bound (nw * h) w Hw) as Hmod.
    assert (0 <= nw * h / w) by (apply Z.div_pos; nia).
    assert (nw * h / w <= h) by (apply Z.div_le_upper_bound; nia).
    repeat split; lia.
  - set (nh := Z.min 108 h).
    assert (Hnh : 0 <= nh <= h) by (unfold nh; lia).
    pose proof (Z.div_mod (nh * w) h ltac:(lia)) as Hdm.
    pose proof (Z.mod_pos_bound (nh * w) h Hh) as Hmod.
    assert (0 <= nh * w / h) by (apply Z.div_pos; nia).
    assert (nh * w / h <= w) by (apply Z.div_le_upper_bound; nia).
    repeat split; lia.
Qed.

End LogoFacts.

(** * Size-bounded encoder *)

Section EncoderFacts.

Variable save_jpeg : Image -> Z -> list byte.
Variable image : Image.
Variable max_size_bytes : Z.

Lemma optimize_loop_unfold min_quality quality last :
  optimize_loop save_jpeg image max_size_bytes min_quality quality last
  = if quality <? min_quality
    then match last with
         | Some jpeg_data => Ok jpeg_data
         | None => Raise (UnboundLocalError "file_size")
         end
    else if jpeg_size save_jpeg image quality <=? max_size_bytes
    then Ok (save_jpeg image quality)
    else optimize_loop save_jpeg image max_size_bytes min_quality
           (quality - 5) (Some (save_jpeg image quality)).
Proof.
  rewrite optimize_loop_equation_1. unfold optimize_loop_unfold_clause_1.
  destruct (Z_lt_ge_dec quality min_quality);
    destruct (Z.ltb_spec quality min_quality); try lia; reflexivity.
Qed.

(** The loop returns the encoding at the first probe
    [quality - 5 * k] that meets the budget, or at the last probe that is
    still at least [min_quality]. *)
Lemma optimize_loop_spec min_quality (n : nat) :
  forall quality last,
    quality - min_quality < Z.of_nat n -> min_quality <= quality ->
    exists k : nat,
      let q := quality - 5 * Z.of_nat k in
      min_quality <= q
      /\ optimize_loop save_jpeg image max_size_bytes min_quality quality last
         = Ok (save_jpeg image q)
      /\ (forall j : nat, (j < k)%nat ->
            max_size_bytes < jpeg_size save_jpeg image (quality - 5 * Z.of_nat j))
      /\ (jpeg_size save_jpeg image q <= max_size_bytes \/ q - 5 < min_quality).
Proof.
  induction n as [|n IH]; intros quality last Hn Hq; [lia|].
  rewrite optimize_loop_unfold.
  destruct (Z.ltb_spec quality min_quality) as [?|_]; [lia|].
  destruct (Z.leb_spec (jpeg_size save_jpeg image quality) max_size_bytes)
    as [Hfit|Hover].
  - exists 0%nat. cbn zeta. rewrite Z.mul_0_r, Z.sub_0_r.
    repeat split; auto; intros; lia.
  - destruct (Z_lt_ge_dec (quality - 5) min_quality) as [Hlast|Hmore].
    + rewrite optimize_loop_unfold.
      destruct (Z.ltb_spec (quality - 5) min_quality) as [_|?]; [|lia].
      exists 0%nat. cbn zeta. rewrite Z.mul_0_r, Z.sub_0_r.
      repeat split; auto; intros; lia.
    + destruct (IH (quality - 5) (Some (save_jpeg image quality)))
        as (k & Hk & Hres & Hprev & Hstop); [lia|lia|].
      cbn zeta in *. exists (S k).
      replace (quality - 5 * Z.of_nat (S k))
        with (quality - 5 - 5 * Z.of_nat k) by lia.
      repeat split; auto.
      intros j Hj. destruct j as [|j].
      * now rewrite Z.mul_0_r, Z.sub_0_r.
      * replace (quality - 5 * Z.of_nat (S j))
          with (quality - 5 - 5 * Z.of_nat j) by lia.
        apply Hprev. lia.
Qed.

(** For any settings whose floor does not exceed the start. *)
Lemma optimize_jpeg_size_spec (settings : Settings) :
  jpeg_quality_min settings <= jpeg_quality_start settings ->
  exists k : nat,
    let q := jpeg_quality_start settings - 5 * Z.of_nat k in
    jpeg_quality_min settings <= q
    /\ _optimize_jpeg_size settings save_jpeg image max_size_bytes
       = Ok (save_jpeg image q)
    /\ (forall j : nat, (j < k)%nat ->
          max_size_bytes
          < jpeg_size save_jpeg image (jpeg_quality_start settings - 5 * Z.of_nat j))
    /\ (jpeg_size save_jpeg image q <= max_size_bytes
        \/ q - 5 < jpeg_quality_min settings).
Proof.
  intros Hle. unfold _optimize_jpeg_size.
  apply (optimize_loop_spec (jpeg_quality_min settings)
           (S (Z.to_nat (jpeg_quality_start settings - jpeg_quality_min settings))));
    lia.
Qed.

End EncoderFacts.

Section RangeFacts.

Lemma range_In a b s : a <= s < b -> In s (range a b).
Proof.
  intros H. unfold range. apply in_map_iff.
  exists (Z.to_nat (s - a)). split; [lia|]. apply in_seq. lia.
Qed.

Lemma fits_downward_by_threshold get_font text max_width max_height t :
  forallb (fun s => Bool.eqb (fits_height get_font text max_width max_height s)
                      (s <=? t)) (range 20 121) = true ->
  fits_downward get_font text max_width max_height.
Proof.
  intros Hall s s' Hs Hs' Hfit. rewrite forallb_forall in Hall.
  pose proof (Hall s (range_In 20 121 s ltac:(lia))) as E.
  pose proof (Hall s' (range_In 20 121 s' ltac:(lia))) as E'.
  apply eqb_prop in E, E'. rewrite E. rewrite E' in Hfit.
  apply Z.leb_le in Hfit. apply Z.leb_le. lia.
Qed.

Lemma string_length_append (a b : string) :
  String.length (a ++ b) = (String.length a + String.length b)%nat.
Proof. induction a; cbn; congruence. Qed.

Lemma mono_width_monotone s : 0 <= s -> width_monotone (mono_font s).
Proof.
  intros Hs a b. unfold line_width, _calculate_text_size, mono_font.
  cbn [textbbox fst]. rewrite !string_length_append. cbn [String.length].
  split; nia.
Qed.

End RangeFacts.

(** * Composition *)

Section ComposeFacts.

Variable settings : Settings.
Variable get_font : Z -> option Font.
Variable Image_open : list byte -> result Image.
Variable save_jpeg : Image -> Z -> list byte.
Variable now : string.

Lemma text_area_height_value : text_area_height = 600.
Proof. reflexivity. Qed.

(** A layout without font or without lines aborts the composition. *)
Lemma compose_without_layout background title accent_color logo_image request_id :
  _find_optimal_font_size get_font title text_area_width text_area_height
  = (None, [], 20) ->
  compose_thumbnail settings get_font Image_open save_jpeg now
    background title accent_color logo_image request_id
  = match _resize_background_to_canvas background with
    | Ok _ => Raise (ValueError "Could not fit text in available space")
    | Raise e => Raise e
    end.
Proof.
  intros Hlayout. unfold compose_thumbnail.
  destruct (_resize_background_to_canvas background); cbn [bind]; [|reflexivity].
  fold text_area_height. rewrite Hlayout. reflexivity.
Qed.

(** A logo that cannot be processed leaves the composition as it is
    without a logo. *)
Lemma compose_skips_failed_logo background title accent_color logo_data request_id :
  _process_logo Image_open logo_data = None ->
  compose_thumbnail settings get_font Image_open save_jpeg now
    background title accent_color (Some logo_data) request_id
  = compose_thumbnail settings get_font Image_open save_jpeg now
      background title accent_color None request_id.
Proof.
  intros Hlogo. unfold compose_thumbnail.
  destruct (_resize_background_to_canvas background); cbn [bind]; [|reflexivity].
  destruct (_find_optimal_font_size get_font title text_area_width _)
    as [[font lines] font_size].
  destruct font; [|reflexivity]. destruct lines; [reflexivity|].
  destruct (fold_left _ _ _) as [canvas y].
  destruct logo_data; [reflexivity|]. now rewrite Hlogo.
Qed.

End ComposeFacts.

(** * The claims *)




(** C3.  On the square 1024 x 1024 source the normaliser takes the
    "taller" branch, scales to 1280 x 576 -- neither the source's
    proportions nor tall enough to cover the canvas -- and the "crop" box
    starts 72 rows above the scaled picture. *)
Theorem resize_background_square_source :
  exists canvas,
    _resize_background_to_canvas (decoded "bg" 1024 1024) = Ok canvas
    /\ scaled_size canvas = Some (1280, 576)
    /\ crop_box canvas = Some (0, -72, 1280, 648)
    /\ ~ aspect_within_pixel (1024, 1024) (1280, 576)
    /\ 576 < canvas_height.
Proof.
  eexists. split; [vm_compute; reflexivity|].
  split; [reflexivity|]. split; [reflexivity|].
  split; [unfold aspect_within_pixel; cbn; lia | reflexivity].
Qed.

(** The same slip on the "wider" branch: a 2000 x 1000 source is scaled
    to 1777 x 720, where its proportions call for 1440 x 720. *)
Lemma resize_background_wide_source :
  exists canvas,
    _resize_background_to_canvas (decoded "bg" 2000 1000) = Ok canvas
    /\ scaled_size canvas = Some (1777, 720)
    /\ crop_box canvas = Some (248, 0, 1528, 720)
    /\ ~ aspect_within_pixel (2000, 1000) (1777, 720).
Proof.
  eexists. split; [vm_compute; reflexivity|].
  split; [reflexivity|]. split; [reflexivity|].
  unfold aspect_within_pixel; cbn; lia.
Qed.

(** C10.  The words of the returned lines, in order, are the words of the
    text, and no returned line is empty. *)
Theorem wrap_preserves_words (text : string) (font : Font) (max_width : Z) :
  List.concat (map split (_wrap_text_to_fit text font max_width)) = split text
  /\ Forall (fun line => line <> EmptyString)
       (_wrap_text_to_fit text font max_width).
Proof.
  rewrite wrap_is_joined_groups.
  pose proof (wrap_groups_concat font max_width (split text)) as Hcat.
  pose proof (wrap_groups_nonempty font max_width (split text)) as Hne.
  pose proof (split_wordlike text) as Hws. rewrite <- Hcat in Hws.
  assert (Hgs : Forall (Forall wordlike) (wrap_groups font max_width (split text))).
  { clear Hcat Hne. induction (wrap_groups font max_width (split text)) as [|g gs IH].
    - constructor.
    - cbn [List.concat] in Hws. apply Forall_app in Hws as [Hg Hrest].
      constructor; auto. }
  split.
  - rewrite map_map. rewrite <- Hcat at 2. f_equal.
    rewrite <- (map_id (wrap_groups font max_width (split text))) at 2.
    apply map_ext_in. intros g Hg. apply split_join.
    rewrite Forall_forall in Hgs. now apply Hgs.
  - apply Forall_map. rewrite Forall_forall in *. intros g Hg E.
    pose proof (join_is_empty g (Hgs g Hg)) as Hj. rewrite E in Hj.
    specialize (Hne g Hg). destruct g; [congruence|discriminate].
Qed.



(** C9.  With text and width fixed, a taller text area never yields a
    smaller font size. *)
Theorem font_size_monotone_in_height (get_font : Z -> option Font)
    (text : string) (max_width h1 h2 : Z) :
  h1 <= h2 ->
  layout_size (_find_optimal_font_size get_font text max_width h1)
  <= layout_size (_find_optimal_font_size get_font text max_width h2).
Proof.
  intros Hh. unfold _find_optimal_font_size.
  apply (search_loop_mono get_font text max_width h1 h2 101 Hh);
    cbn; lia.
Qed.

Lemma font_size_monotone_in_height_witness :
  100 <= 600
  /\ layout_size (_find_optimal_font_size mono "Top 10 Python Tips for Beginners" 576 100)
     <= layout_size (_find_optimal_font_size mono "Top 10 Python Tips for Beginners" 576 600).
Proof.
  split; [lia|].
  apply (font_size_monotone_in_height mono "Top 10 Python Tips for Beginners" 576 100 600).
  lia.
Defined.

(** What the search returns, without any assumption on the font: either
    nothing fitted on the path and the initial record comes back, or the
    returned size fits and the next size up does not. *)
Lemma find_optimal_font_size_spec (get_font : Z -> option Font)
    (text : string) (max_width max_height : Z) :
  exists s,
    19 <= s <= 120
    /\ (s = 19 ->
        _find_optimal_font_size get_font text max_width max_height = (None, [], 20))
    /\ (20 <= s ->
        fits_height get_font text max_width max_height s = true
        /\ _find_optimal_font_size get_font text max_width max_height
           = layout_at get_font text max_width s)
    /\ (s < 120 -> fits_height get_font text max_width max_height (s + 1) = false).
Proof.
  unfold _find_optimal_font_size.
  destruct (search_loop_spec get_font text max_width max_height 101 20 120
              (None, [], 20)) as (s & Hs & H1 & H2 & H3); [cbn; lia|lia|].
  exists s. repeat split; auto; try lia; intros; try apply H1; try apply H2; lia.
Qed.

(** C5 (as amended).  When fitting is downward closed in the size and the
    minimum size fits, the search returns the largest fitting size of
    [20, 120] together with the font and the wrap at that size. *)
Theorem find_optimal_is_largest (get_font : Z -> option Font)
    (text : string) (max_width max_height : Z) :
  fits_downward get_font text max_width max_height ->
  fits_height get_font text max_width max_height 20 = true ->
  largest_fitting get_font text max_width max_height
    (_find_optimal_font_size get_font text max_width max_height).
Proof.
  intros Hdown H20.
  destruct (find_optimal_font_size_spec get_font text max_width max_height)
    as (s & Hs & Hnone & Hsome & Hnext).
  destruct (Z.eq_dec s 19) as [->|Hne].
  - specialize (Hnext ltac:(lia)). cbn in Hnext. congruence.
  - destruct Hsome as [Hfit Hres]; [lia|].
    unfold largest_fitting. rewrite Hres, layout_at_size.
    repeat split; try lia; auto.
    intros s' Hs' Hfit'. destruct (Z_le_gt_dec s' s) as [|Hgt]; [assumption|].
    assert (fits_height get_font text max_width max_height (s + 1) = true)
      by (apply (Hdown (s + 1) s'); auto; lia).
    rewrite Hnext in H by lia. discriminate.
Qed.

Lemma find_optimal_is_largest_witness :
  fits_downward mono "Top 10 Python Tips for Beginners" 576 600
  /\ fits_height mono "Top 10 Python Tips for Beginners" 576 600 20 = true
  /\ largest_fitting mono "Top 10 Python Tips for Beginners" 576 600
       (_find_optimal_font_size mono "Top 10 Python Tips for Beginners" 576 600).
Proof.
  assert (Hdown : fits_downward mono "Top 10 Python Tips for Beginners" 576 600)
    by (apply (fits_downward_by_threshold _ _ _ _ 96); vm_compute; reflexivity).
  split; [exact Hdown|]. split; [vm_compute; reflexivity|].
  apply (find_optimal_is_largest mono "Top 10 Python Tips for Beginners" 576 600).
  - exact Hdown.
  - vm_compute; reflexivity.
Defined.

(** C5, as stated, fails when no size fits: the search hands back size 20,
    which does not fit, and no lines. *)
Lemma find_optimal_nothing_fits :
  ~ largest_fitting mono "Hello World" 576 10
      (_find_optimal_font_size mono "Hello World" 576 10).
Proof.
  intros (_ & Hfit & _). vm_compute in Hfit. discriminate.
Qed.

(** Without downward closure the search can stop below the largest fitting
    size: here every size but 70 fits, and 69 is returned. *)
Lemma find_optimal_needs_downward :
  fits_height (dip_at 70) "Hi" 576 600 20 = true
  /\ fits_height (dip_at 70) "Hi" 576 600 120 = true
  /\ layout_size (_find_optimal_font_size (dip_at 70) "Hi" 576 600) = 69.
Proof. repeat split; vm_compute; reflexivity. Qed.

(** Nor does an overflow at size 20 alone decide the outcome: here only
    size 20 overflows, and the search settles on 120. *)
Lemma find_optimal_overflow_at_20_only :
  fits_height (dip_at 20) "Hi" 576 600 20 = false
  /\ layout_size (_find_optimal_font_size (dip_at 20) "Hi" 576 600) = 120
  /\ layout_lines (_find_optimal_font_size (dip_at 20) "Hi" 576 600) = ["Hi"%string].
Proof. repeat split; vm_compute; reflexivity. Qed.

(** C1 (as amended).  When fitting is downward closed in the size and the
    text overflows at the minimum size 20, the search returns no font, no
    lines and size 20, and the composition raises [ValueError] instead of
    producing a thumbnail. *)
Theorem overflow_at_minimum_is_rejected (settings : Settings)
    (get_font : Z -> option Font) (Image_open : list byte -> result Image)
    (save_jpeg : Image -> Z -> list byte) (now : string)
    (background : Image) (title accent_color : string)
    (logo_image : option (list byte)) (request_id : option string) :
  fits_downward get_font title text_area_width text_area_height ->
  fits_height get_font title text_area_width text_area_height 20 = false ->
  _find_optimal_font_size get_font title text_area_width text_area_height = (None, [], 20)
  /\ (forall thumbnail,
        compose_thumbnail settings get_font Image_open save_jpeg now
          background title accent_color logo_image request_id <> Ok thumbnail)
  /\ (forall canvas,
        _resize_background_to_canvas background = Ok canvas ->
        compose_thumbnail settings get_font Image_open save_jpeg now
          background title accent_color logo_image request_id
        = Raise (ValueError "Could not fit text in available space")).
Proof.
  intros Hdown H20.
  assert (Hlayout :
    _find_optimal_font_size get_font title text_area_width text_area_height = (None, [], 20)).
  { destruct (find_optimal_font_size_spec get_font title text_area_width text_area_height)
      as (s & Hs & Hnone & Hsome & _).
    destruct (Z.eq_dec s 19) as [E|E]; [now apply Hnone|].
    destruct Hsome as [Hfit _]; [lia|].
    rewrite (Hdown 20 s) in H20; [discriminate|lia|lia|exact Hfit]. }
  split; [exact Hlayout|].
  split; [intros thumbnail | intros canvas Hcanvas];
    rewrite (compose_without_layout settings get_font Image_open save_jpeg now
               background title accent_color logo_image request_id Hlayout).
  - destruct (_resize_background_to_canvas background); discriminate.
  - now rewrite Hcanvas.
Qed.

Lemma overflow_at_minimum_is_rejected_witness :
  fits_downward mono long_title text_area_width text_area_height
  /\ fits_height mono long_title text_area_width text_area_height 20 = false
  /\ _find_optimal_font_size mono long_title text_area_width text_area_height = (None, [], 20)
  /\ (forall thumbnail,
        compose_thumbnail default_settings mono no_decoder flat_encoder "2024-01-01_000000"
          (decoded "bg" 1536 864) long_title "#FFD000" None None <> Ok thumbnail)
  /\ (forall canvas,
        _resize_background_to_canvas (decoded "bg" 1536 864) = Ok canvas ->
        compose_thumbnail default_settings mono no_decoder flat_encoder "2024-01-01_000000"
          (decoded "bg" 1536 864) long_title "#FFD000" None None
        = Raise (ValueError "Could not fit text in available space")).
Proof.
  assert (Hdown : fits_downward mono long_title text_area_width text_area_height)
    by (apply (fits_downward_by_threshold _ _ _ _ 19); vm_compute; reflexivity).
  split; [exact Hdown|]. split; [vm_compute; reflexivity|].
  apply (overflow_at_minimum_is_rejected default_settings mono no_decoder
           flat_encoder "2024-01-01_000000" (decoded "bg" 1536 864) long_title
           "#FFD000" None None).
  - exact Hdown.
  - vm_compute; reflexivity.
Defined.

(** C1, as stated, fails: the title below overflows at size 20, yet the
    search returns no lines rather than the wrap at 20, and the
    composition raises instead of producing a thumbnail. *)
Lemma overflowing_title_raises :
  fits_height mono long_title text_area_width text_area_height 20 = false
  /\ ~ (layout_lines (_find_optimal_font_size mono long_title text_area_width text_area_height)
        = _wrap_text_to_fit long_title (mono_font 20) text_area_width
        /\ exists thumbnail,
             compose_thumbnail default_settings mono no_decoder flat_encoder
               "2024-01-01_000000" (decoded "bg" 1536 864) long_title "#FFD000"
               None None = Ok thumbnail).
Proof.
  split; [vm_compute; reflexivity|].
  intros (_ & thumbnail & H). vm_compute in H. discriminate.
Qed.



(** C8.  Whatever the body of [_process_logo] raises -- a decode failure
    or a later processing failure -- the caller gets [None], and the
    composition with that logo is the composition without a logo: it
    produces the same thumbnail whenever the logo-free one is produced. *)
Theorem logo_failure_is_absorbed (settings : Settings)
    (get_font : Z -> option Font) (Image_open : list byte -> result Image)
    (save_jpeg : Image -> Z -> list byte) (now : string)
    (background : Image) (title accent_color : string)
    (logo_data : list byte) (request_id : option string) (e : exn) :
  process_logo_body Image_open logo_data = Raise e ->
  _process_logo Image_open logo_data = None
  /\ compose_thumbnail settings get_font Image_open save_jpeg now
       background title accent_color (Some logo_data) request_id
     = compose_thumbnail settings get_font Image_open save_jpeg now
         background title accent_color None request_id
  /\ (forall thumbnail,
        compose_thumbnail settings get_font Image_open save_jpeg now
          background title accent_color None request_id = Ok thumbnail ->
        compose_thumbnail settings get_font Image_open save_jpeg now
          background title accent_color (Some logo_data) request_id = Ok thumbnail).
Proof.
  intros Hbody.
  assert (Hnone : _process_logo Image_open logo_data = None)
    by (unfold _process_logo; now rewrite Hbody).
  split; [exact Hnone|].
  pose proof (compose_skips_failed_logo settings get_font Image_open save_jpeg
                now background title accent_color logo_data request_id Hnone) as E.
  split; [exact E|]. intros thumbnail H. now rewrite E.
Qed.

(** A decode failure is a failure of the body. *)
Lemma decode_failure_raises (Image_open : list byte -> result Image)
    (logo_data : list byte) (e : exn) :
  Image_open logo_data = Raise e ->
  process_logo_body Image_open logo_data = Raise e.
Proof. intros H. unfold process_logo_body. now rewrite H. Qed.

(** The logo step never raises: its result is [Some] or [None]. *)
Lemma process_logo_total (Image_open : list byte -> result Image)
    (logo_data : list byte) :
  (exists logo, process_logo_body Image_open logo_data = Ok logo
                /\ _process_logo Image_open logo_data = Some logo)
  \/ (exists e, process_logo_body Image_open logo_data = Raise e
                /\ _process_logo Image_open logo_data = None).
Proof.
  unfold _process_logo.
  destruct (process_logo_body Image_open logo_data) as [logo|e];
    [left | right]; eexists; split; reflexivity.
Qed.

Lemma logo_failure_is_absorbed_witness :
  process_logo_body no_decoder [x00] = Raise UnidentifiedImageError
  /\ _process_logo no_decoder [x00] = None
  /\ compose_thumbnail default_settings mono no_decoder flat_encoder
       "2024-01-01_000000" (decoded "bg" 1536 864) "Hello World" "#FFD000"
       (Some [x00]) None
     = compose_thumbnail default_settings mono no_decoder flat_encoder
         "2024-01-01_000000" (decoded "bg" 1536 864) "Hello World" "#FFD000"
         None None
  /\ (forall thumbnail,
        compose_thumbnail default_settings mono no_decoder flat_encoder
          "2024-01-01_000000" (decoded "bg" 1536 864) "Hello World" "#FFD000"
          None None = Ok thumbnail ->
        compose_thumbnail default_settings mono no_decoder flat_encoder
          "2024-01-01_000000" (decoded "bg" 1536 864) "Hello World" "#FFD000"
          (Some [x00]) None = Ok thumbnail).
Proof.
  split; [reflexivity|].
  apply (logo_failure_is_absorbed default_settings mono no_decoder flat_encoder
           "2024-01-01_000000" (decoded "bg" 1536 864) "Hello World" "#FFD000"
           [x00] None UnidentifiedImageError).
  reflexivity.
Defined.



(** * Further properties *)

(** ** Drawing *)

Section DrawingFacts.

Lemma range_In_iff a b d : In d (range a b) <-> a <= d < b.
Proof.
  split; [|apply range_In].
  unfold range. intros H. apply in_map_iff in H as (i & <- & Hi).
  apply in_seq in Hi. lia.
Qed.

Lemma range_NoDup a b : NoDup (range a b).
Proof.
  unfold range. apply NoDup_map_NoDup_ForallPairs; [|apply seq_NoDup].
  intros i j _ _ H. lia.
Qed.

Lemma range_length a b : List.length (range a b) = Z.to_nat (b - a).
Proof. unfold range. now rewrite length_map, length_seq. Qed.

Lemma list_prod_NoDup {A B : Type} (l : list A) (l' : list B) :
  NoDup l -> NoDup l' -> NoDup (list_prod l l').
Proof.
  intros Hl Hl'. induction Hl as [|a l Ha Hl IH]; cbn; [constructor|].
  apply NoDup_app; [|exact IH|].
  - apply NoDup_map_NoDup_ForallPairs; [|exact Hl'].
    intros b b' _ _ E. now injection E.
  - intros [a' b] Hin Hin'. apply in_map_iff in Hin as (b0 & E & _).
    injection E as <- <-. apply in_prod_iff in Hin' as [Hin' _]. contradiction.
Qed.

Lemma filter_one_out {A : Type} (f : A -> bool) (x : A) (l : list A) :
  NoDup l -> In x l -> (forall y, f y = false <-> y = x) ->
  S (List.length (filter f l)) = List.length l.
Proof.
  intros Hl Hx Hf. induction Hl as [|a l Ha Hl IH]; [destruct Hx|].
  cbn. destruct (f a) eqn:Ea.
  - destruct Hx as [->|Hx].
    + assert (f x = false) by now apply Hf. congruence.
    + cbn. f_equal. now apply IH.
  - apply Hf in Ea. subst a. f_equal.
    assert (E : filter f l = l); [|now rewrite E].
    clear IH Hx. induction l as [|b l IHl]; [reflexivity|].
    cbn. destruct (f b) eqn:Eb.
    + f_equal. apply IHl.
      * intros Hin. apply Ha. now right.
      * now inversion Hl.
    + apply Hf in Eb. subst b. exfalso. apply Ha. now left.
Qed.

Lemma stroke_offsets_length sw :
  0 <= sw ->
  Z.of_nat (List.length (stroke_offsets sw)) = (2 * sw + 1) * (2 * sw + 1) - 1.
Proof.
  intros Hsw. unfold stroke_offsets.
  set (R := range (- sw) (sw + 1)).
  assert (Hlen : S (List.length
                      (filter (fun d => negb ((fst d =? 0) && (snd d =? 0)))
                         (list_prod R R)))
                 = List.length (list_prod R R)).
  { apply (filter_one_out _ (0, 0)).
    - apply list_prod_NoDup; apply range_NoDup.
    - apply in_prod_iff. split; apply range_In_iff; lia.
    - intros [dx dy]. cbn [fst snd]. rewrite negb_false_iff, andb_true_iff.
      rewrite !Z.eqb_eq. split; [intros [-> ->]; reflexivity|].
      intros E. injection E as -> ->. auto. }
  rewrite length_prod in Hlen. subst R. rewrite range_length in Hlen.
  apply (f_equal Z.of_nat) in Hlen.
  rewrite Nat2Z.inj_succ, Nat2Z.inj_mul, Z2Nat.id in Hlen by lia.
  lia.
Qed.

Lemma stroke_offsets_In sw dx dy :
  In (dx, dy) (stroke_offsets sw)
  <-> Z.abs dx <= sw /\ Z.abs dy <= sw /\ (dx, dy) <> (0, 0).
Proof.
  unfold stroke_offsets. rewrite filter_In, in_prod_iff, !range_In_iff.
  cbn [fst snd]. rewrite negb_true_iff, andb_false_iff, !Z.eqb_neq.
  split.
  - intros ([H1 H2] & H3). repeat split; try lia.
    intros E. injection E as -> ->. lia.
  - intros (H1 & H2 & H3). split; [lia|].
    destruct (Z.eq_dec dx 0) as [->|]; [|now left].
    right. intros ->. now apply H3.
Qed.

Lemma stroke_offsets_NoDup sw : NoDup (stroke_offsets sw).
Proof.
  unfold stroke_offsets. apply NoDup_filter.
  apply list_prod_NoDup; apply range_NoDup.
Qed.

Lemma with_raster_id c : with_raster c (raster c) = c.
Proof. now destruct c. Qed.

Lemma paint_app r text font d1 d2 :
  paint r text font (d1 ++ d2) = paint (paint r text font d1) text font d2.
Proof. unfold paint. now rewrite fold_left_app. Qed.

(** Drawing the outline for a list of offsets, skipping the origin. *)
Lemma fold_outline x y text font stroke (offsets : list (Z * Z)) :
  forall c,
    fold_left (fun c d =>
      if (fst d =? 0) && (snd d =? 0) then c
      else draw_text c (x + fst d, y + snd d) text font stroke) offsets c
    = with_raster c
        (paint (raster c) text font
           (map (fun d => ((x + fst d, y + snd d), stroke))
              (filter (fun d => negb ((fst d =? 0) && (snd d =? 0))) offsets))).
Proof.
  induction offsets as [|d l IH]; intros c; cbn [fold_left filter map].
  - cbn. now rewrite with_raster_id.
  - rewrite IH. destruct ((fst d =? 0) && (snd d =? 0)); cbn [negb]; reflexivity.
Qed.

Lemma nested_outline x y text font stroke (ys : list Z) (xs : list Z) :
  forall c,
    fold_left (fun c dx =>
      fold_left (fun c dy =>
        if (dx =? 0) && (dy =? 0) then c
        else draw_text c (x + dx, y + dy) text font stroke) ys c) xs c
    = fold_left (fun c d =>
        if (fst d =? 0) && (snd d =? 0) then c
        else draw_text c (x + fst d, y + snd d) text font stroke)
        (list_prod xs ys) c.
Proof.
  induction xs as [|dx xs IH]; intros c; [reflexivity|].
  cbn [fold_left list_prod]. rewrite fold_left_app, <- IH. f_equal.
  clear IH. generalize c. induction ys as [|dy ys IHy]; intros c0; [reflexivity|].
  cbn [fold_left map fst snd]. apply IHy.
Qed.

End DrawingFacts.

(** X1.  [_draw_text_with_effects] draws the text once in the stroke
    colour at every offset of the square of side [2 * stroke_width + 1]
    around the position except the position itself -- each offset once,
    [(2 * stroke_width + 1)^2 - 1] draws -- and then once in the fill
    colour at the position, on top; the canvas keeps its size. *)
Theorem stroke_then_fill (canvas : Image) (x y : Z) (text : string)
    (font : Font) (fill_color stroke_color : string) (stroke_width : Z) :
  0 <= stroke_width ->
  exists outline : list (Z * Z),
    raster (_draw_text_with_effects canvas (x, y) text font
              fill_color stroke_color stroke_width)
    = paint (raster canvas) text font
        (map (fun p => (p, stroke_color)) outline ++ [((x, y), fill_color)])
    /\ Z.of_nat (List.length outline)
       = (2 * stroke_width + 1) * (2 * stroke_width + 1) - 1
    /\ NoDup outline
    /\ (forall px py,
          In (px, py) outline
          <-> Z.abs (px - x) <= stroke_width
              /\ Z.abs (py - y) <= stroke_width
              /\ (px, py) <> (x, y))
    /\ size (_draw_text_with_effects canvas (x, y) text font
               fill_color stroke_color stroke_width)
       = size canvas.
Proof.
  intros Hsw.
  exists (map (fun d => (x + fst d, y + snd d)) (stroke_offsets stroke_width)).
  unfold _draw_text_with_effects.
  rewrite nested_outline, fold_outline. fold (stroke_offsets stroke_width).
  split; [|split; [|split; [|split]]].
  - cbn [draw_text with_raster raster]. rewrite paint_app, map_map. reflexivity.
  - rewrite length_map. now apply stroke_offsets_length.
  - apply NoDup_map_NoDup_ForallPairs; [|apply stroke_offsets_NoDup].
    intros [a b] [a' b'] _ _ E. cbn [fst snd] in E. injection E as E1 E2.
    f_equal; lia.
  - intros px py. rewrite in_map_iff. split.
    + intros ([dx dy] & E & Hin). cbn [fst snd] in E. injection E as <- <-.
      apply stroke_offsets_In in Hin as (H1 & H2 & H3).
      repeat split; try (replace (x + dx - x) with dx by lia; assumption);
        try (replace (y + dy - y) with dy by lia; assumption).
      intros E. injection E as E1 E2. apply H3. f_equal; lia.
    + intros (H1 & H2 & H3). exists (px - x, py - y). cbn [fst snd].
      split; [f_equal; lia|]. apply stroke_offsets_In.
      repeat split; try assumption.
      intros E. injection E as E1 E2. apply H3. f_equal; lia.
  - reflexivity.
Qed.

Lemma stroke_then_fill_witness :
  0 <= 6
  /\ exists outline : list (Z * Z),
       raster (_draw_text_with_effects (decoded "bg" 1280 720) (40, 300)
                 "Title" (mono_font 70) "#FFFFFF" "#000000" 6)
       = paint (raster (decoded "bg" 1280 720)) "Title" (mono_font 70)
           (map (fun p => (p, "#000000"%string)) outline
            ++ [((40, 300), "#FFFFFF"%string)])
       /\ Z.of_nat (List.length outline) = (2 * 6 + 1) * (2 * 6 + 1) - 1
       /\ NoDup outline
       /\ (forall px py,
             In (px, py) outline
             <-> Z.abs (px - 40) <= 6 /\ Z.abs (py - 300) <= 6
                 /\ (px, py) <> (40, 300))
       /\ size (_draw_text_with_effects (decoded "bg" 1280 720) (40, 300)
                  "Title" (mono_font 70) "#FFFFFF" "#000000" 6)
          = size (decoded "bg" 1280 720).
Proof.
  split; [lia|].
  apply (stroke_then_fill (decoded "bg" 1280 720) 40 300 "Title" (mono_font 70)
           "#FFFFFF" "#000000" 6).
  lia.
Defined.

(** ** Word wrap and layout *)

Section WrapWidth.

Variable font : Font.
Variable max_width : Z.

Lemma groups_step_single_or_fits gs g w :
  Forall (single_or_fits font max_width) gs -> (g = [] \/ single_or_fits font max_width g) ->
  Forall (single_or_fits font max_width) (fst (groups_step font max_width (gs, g) w))
  /\ (snd (groups_step font max_width (gs, g) w) = []
      \/ (single_or_fits font max_width) (snd (groups_step font max_width (gs, g) w))).
Proof.
  intros Hgs Hg. unfold groups_step.
  destruct (Z.leb_spec (line_width font (join_space (g ++ [w]))) max_width)
    as [Hfit|Hover]; cbn [fst snd].
  - split; [assumption|]. right. now right.
  - destruct g as [|v g]; cbn [fst snd].
    + split; [|now left]. apply Forall_app. split; [assumption|].
      constructor; [|constructor]. left. now exists w.
    + split; [|right; left; now exists w].
      apply Forall_app. split; [assumption|].
      constructor; [|constructor]. destruct Hg as [Hg|Hg]; [discriminate|exact Hg].
Qed.

Lemma fold_groups_single_or_fits ws :
  forall gs g,
    Forall (single_or_fits font max_width) gs -> (g = [] \/ single_or_fits font max_width g) ->
    Forall (single_or_fits font max_width)
      (fst (fold_left (groups_step font max_width) ws (gs, g)))
    /\ (snd (fold_left (groups_step font max_width) ws (gs, g)) = []
        \/ (single_or_fits font max_width)
             (snd (fold_left (groups_step font max_width) ws (gs, g)))).
Proof.
  induction ws as [|w ws IH]; intros gs g Hgs Hg; cbn [fold_left]; [auto|].
  destruct (groups_step_single_or_fits gs g w Hgs Hg) as [H1 H2].
  destruct (groups_step font max_width (gs, g) w) as [gs' g'].
  now apply IH.
Qed.

Lemma wrap_groups_single_or_fits ws :
  Forall (single_or_fits font max_width) (wrap_groups font max_width ws).
Proof.
  unfold wrap_groups.
  destruct (fold_groups_single_or_fits ws [] []) as [H1 H2];
    [constructor | now left |].
  destruct (fold_left _ _ _) as [gs g]. cbn [fst snd] in *.
  unfold groups_finish. destruct g as [|v g]; [assumption|].
  apply Forall_app. split; [assumption|].
  constructor; [|constructor]. destruct H2 as [H2|H2]; [discriminate|exact H2].
Qed.

End WrapWidth.

(** X2.  Every line returned by the wrap measures at most [max_width],
    unless it is a single word of the text (which is then placed on its
    own line whatever its width). *)
Theorem wrap_lines_fit (text : string) (font : Font) (max_width : Z) :
  forall line,
    In line (_wrap_text_to_fit text font max_width) ->
    line_width font line <= max_width \/ In line (split text).
Proof.
  intros line Hin. rewrite wrap_is_joined_groups in Hin.
  apply in_map_iff in Hin as (g & <- & Hg).
  pose proof (wrap_groups_single_or_fits font max_width (split text)) as Hall.
  rewrite Forall_forall in Hall. destruct (Hall g Hg) as [[w ->]|Hfit].
  - right. change (join_space [w]) with w.
    rewrite <- (wrap_groups_concat font max_width (split text)).
    apply in_concat. exists [w]. split; [assumption|now left].
  - now left.
Qed.

Lemma wrap_lines_fit_witness :
  In "Tips for"%string
    (_wrap_text_to_fit "Top 10 Python Tips for Beginners" (mono_font 20) 300)
  /\ (line_width (mono_font 20) "Tips for" <= 300
      \/ In "Tips for"%string (split "Top 10 Python Tips for Beginners")).
Proof.
  assert (Hin : In "Tips for"%string
                  (_wrap_text_to_fit "Top 10 Python Tips for Beginners"
                     (mono_font 20) 300))
    by (vm_compute; right; left; reflexivity).
  split; [exact Hin|].
  exact (wrap_lines_fit "Top 10 Python Tips for Beginners" (mono_font 20) 300
           "Tips for" Hin).
Defined.

(** X3.  Whatever the fonts, the layout search returns either the empty
    record [(None, [], 20)], and then size 20 does not fit, or a size of
    [20, 120] that fits, with the font loaded at that size and the wrap
    of the text in that font, such that the next size up, if any, does
    not fit. *)
Theorem layout_is_consistent (get_font : Z -> option Font) (text : string)
    (max_width max_height : Z) :
  let l := _find_optimal_font_size get_font text max_width max_height in
  (l = (None, [], 20)
   /\ fits_height get_font text max_width max_height 20 = false)
  \/ (exists font,
        20 <= layout_size l <= 120
        /\ get_font (layout_size l) = Some font
        /\ l = (Some font, _wrap_text_to_fit text font max_width, layout_size l)
        /\ fits_height get_font text max_width max_height (layout_size l) = true
        /\ (layout_size l < 120 ->
            fits_height get_font text max_width max_height (layout_size l + 1)
            = false)).
Proof.
  cbn zeta.
  destruct (find_optimal_font_size_spec get_font text max_width max_height)
    as (s & Hs & Hnone & Hsome & Hnext).
  destruct (Z.eq_dec s 19) as [->|Hne].
  - left. split; [now apply Hnone|]. now apply Hnext.
  - right. destruct Hsome as [Hfit Hres]; [lia|]. rewrite Hres.
    unfold layout_at, fits_height in *.
    destruct (get_font s) as [font|] eqn:Hfont; [|discriminate].
    exists font. cbn [layout_size snd]. rewrite Hfont.
    repeat split; try lia; auto.
Qed.

(** X4.  When the loader hands out the same font at every size (as when
    only the default bitmap font is available), the search cannot scale
    the text: it returns size 120 with that font if its layout fits, and
    the empty record otherwise. *)
Theorem same_font_at_every_size (font : Font) (text : string)
    (max_width max_height : Z) :
  let get_font := fun _ : Z => Some font in
  _find_optimal_font_size get_font text max_width max_height
  = if fits_height get_font text max_width max_height 120
    then (Some font, _wrap_text_to_fit text font max_width, 120)
    else (None, [], 20).
Proof.
  cbn zeta. set (get_font := fun _ : Z => Some font).
  assert (Hconst : forall s s',
            fits_height get_font text max_width max_height s
            = fits_height get_font text max_width max_height s')
    by reflexivity.
  destruct (find_optimal_font_size_spec get_font text max_width max_height)
    as (s & Hs & Hnone & Hsome & Hnext).
  destruct (Z.eq_dec s 19) as [->|Hne].
  - rewrite (Hconst 120 (19 + 1)), Hnext by lia. now apply Hnone.
  - destruct Hsome as [Hfit Hres]; [lia|].
    rewrite (Hconst 120 s), Hfit, Hres.
    destruct (Z.eq_dec s 120) as [->|Hlt]; [reflexivity|].
    rewrite (Hconst (s + 1) s), Hfit in Hnext. specialize (Hnext ltac:(lia)).
    discriminate.
Qed.

(** ** Composition *)

Section CompositionFacts.

Variable settings : Settings.
Variable get_font : Z -> option Font.
Variable Image_open : list byte -> result Image.
Variable save_jpeg : Image -> Z -> list byte.
Variable now : string.

Lemma resize_background_result_size (background canvas : Image) :
  _resize_background_to_canvas background = Ok canvas ->
  size canvas = (1280, 720).
Proof.
  unfold _resize_background_to_canvas. destruct (size background) as [w h].
  rewrite target_ratio_value. cbn [bind].
  destruct (truediv w h) as [r|e]; cbn [bind]; [|discriminate].
  destruct (Qltb _ _).
  - unfold resize, canvas_width, canvas_height. cbn.
    intros H. injection H as <-. reflexivity.
  - destruct (Qltb _ _).
    + unfold resize. destruct (_ || _); cbn [bind]; [discriminate|].
      unfold crop. destruct (_ <? _); [discriminate|].
      destruct (_ <? _); [discriminate|].
      intros H. injection H as <-. cbn [size].
      unfold canvas_width, canvas_height. f_equal; lia.
    + unfold resize. destruct (_ || _); cbn [bind]; [discriminate|].
      unfold crop. destruct (_ <? _); [discriminate|].
      destruct (_ <? _); [discriminate|].
      intros H. injection H as <-. cbn [size].
      unfold canvas_width, canvas_height. f_equal; lia.
Qed.

Lemma draw_text_with_effects_size canvas position text font fill stroke sw :
  size (_draw_text_with_effects canvas position text font fill stroke sw)
  = size canvas.
Proof.
  destruct position as [x y]. unfold _draw_text_with_effects.
  rewrite nested_outline, fold_outline. reflexivity.
Qed.

Lemma draw_lines_size font line_height (lines : list string) :
  forall canvas y,
    size (fst (fold_left (fun '(c, current_y) line =>
                 (_draw_text_with_effects c (text_margin_left, current_y) line
                    font "#FFFFFF" "#000000" 6,
                  current_y + line_height)) lines (canvas, y)))
    = size canvas.
Proof.
  induction lines as [|line lines IH]; intros canvas y; [reflexivity|].
  cbn [fold_left]. rewrite IH. apply draw_text_with_effects_size.
Qed.

(** A layout without a font or without lines aborts the composition. *)
Lemma compose_rejects background title accent_color logo_image request_id :
  layout_font (_find_optimal_font_size get_font title text_area_width
                 text_area_height) = None
  \/ layout_lines (_find_optimal_font_size get_font title text_area_width
                     text_area_height) = [] ->
  compose_thumbnail settings get_font Image_open save_jpeg now
    background title accent_color logo_image request_id
  = match _resize_background_to_canvas background with
    | Ok _ => Raise (ValueError "Could not fit text in available space")
    | Raise e => Raise e
    end.
Proof.
  intros Hlayout. unfold compose_thumbnail.
  destruct (_resize_background_to_canvas background); cbn [bind]; [|reflexivity].
  fold text_area_height.
  destruct (_find_optimal_font_size get_font title text_area_width
              text_area_height) as [[font lines] font_size].
  cbn [layout_font layout_lines fst snd] in Hlayout.
  destruct Hlayout as [->| ->]; [reflexivity|]. now destruct font.
Qed.

End CompositionFacts.

(** X5.  A title without a word (empty or blank) is never composed: the
    wrap has no line at any size, and [compose_thumbnail] raises
    [ValueError], whatever the fonts and the logo. *)
Theorem blank_title_is_rejected (settings : Settings)
    (get_font : Z -> option Font) (Image_open : list byte -> result Image)
    (save_jpeg : Image -> Z -> list byte) (now : string)
    (background : Image) (title accent_color : string)
    (logo_image : option (list byte)) (request_id : option string) :
  split title = [] ->
  (forall thumbnail,
     compose_thumbnail settings get_font Image_open save_jpeg now
       background title accent_color logo_image request_id <> Ok thumbnail)
  /\ (forall canvas,
        _resize_background_to_canvas background = Ok canvas ->
        compose_thumbnail settings get_font Image_open save_jpeg now
          background title accent_color logo_image request_id
        = Raise (ValueError "Could not fit text in available space")).
Proof.
  intros Hblank.
  assert (Hlines :
    layout_lines (_find_optimal_font_size get_font title text_area_width
                    text_area_height) = []).
  { destruct (find_optimal_font_size_spec get_font title text_area_width
                text_area_height) as (s & Hs & Hnone & Hsome & _).
    destruct (Z.eq_dec s 19) as [E|E]; [now rewrite Hnone|].
    destruct Hsome as [_ ->]; [lia|]. unfold layout_at.
    destruct (get_font s); [|reflexivity].
    cbn [layout_lines fst snd]. unfold _wrap_text_to_fit. now rewrite Hblank. }
  pose proof (compose_rejects settings get_font Image_open save_jpeg now
                background title accent_color logo_image request_id
                (or_intror Hlines)) as E.
  split; [intros thumbnail | intros canvas Hcanvas]; rewrite E.
  - destruct (_resize_background_to_canvas background); discriminate.
  - now rewrite Hcanvas.
Qed.

Lemma blank_title_is_rejected_witness :
  split "   " = []
  /\ (forall thumbnail,
        compose_thumbnail default_settings mono no_decoder flat_encoder
          "2024-01-01_000000" (decoded "bg" 1536 864) "   " "#FFD000"
          None None <> Ok thumbnail)
  /\ (forall canvas,
        _resize_background_to_canvas (decoded "bg" 1536 864) = Ok canvas ->
        compose_thumbnail default_settings mono no_decoder flat_encoder
          "2024-01-01_000000" (decoded "bg" 1536 864) "   " "#FFD000"
          None None
        = Raise (ValueError "Could not fit text in available space")).
Proof.
  split; [reflexivity|].
  apply (blank_title_is_rejected default_settings mono no_decoder flat_encoder
           "2024-01-01_000000" (decoded "bg" 1536 864) "   " "#FFD000"
           None None).
  reflexivity.
Defined.

(** X6.  When no font can be loaded at any size of the range, the search
    returns the empty record and [compose_thumbnail] raises [ValueError]:
    nothing is drawn without a font. *)
Theorem no_font_is_rejected (settings : Settings)
    (get_font : Z -> option Font) (Image_open : list byte -> result Image)
    (save_jpeg : Image -> Z -> list byte) (now : string)
    (background : Image) (title accent_color : string)
    (logo_image : option (list byte)) (request_id : option string) :
  (forall s, 20 <= s <= 120 -> get_font s = None) ->
  _find_optimal_font_size get_font title text_area_width text_area_height
  = (None, [], 20)
  /\ (forall thumbnail,
        compose_thumbnail settings get_font Image_open save_jpeg now
          background title accent_color logo_image request_id <> Ok thumbnail).
Proof.
  intros Hnone.
  assert (Hlayout :
    _find_optimal_font_size get_font title text_area_width text_area_height
    = (None, [], 20)).
  { destruct (find_optimal_font_size_spec get_font title text_area_width
                text_area_height) as (s & Hs & Hempty & Hsome & _).
    destruct (Z.eq_dec s 19) as [E|E]; [now apply Hempty|].
    destruct Hsome as [Hfit _]; [lia|].
    unfold fits_height in Hfit. rewrite Hnone in Hfit by lia. discriminate. }
  split; [exact Hlayout|]. intros thumbnail.
  rewrite (compose_rejects settings get_font Image_open save_jpeg now
             background title accent_color logo_image request_id).
  - destruct (_resize_background_to_canvas background); discriminate.
  - left. now rewrite Hlayout.
Qed.

Lemma no_font_is_rejected_witness :
  (forall s, 20 <= s <= 120 -> (fun _ : Z => @None Font) s = None)
  /\ _find_optimal_font_size (fun _ => None) "Hello World" text_area_width
       text_area_height = (None, [], 20)
  /\ (forall thumbnail,
        compose_thumbnail default_settings (fun _ => None) no_decoder
          flat_encoder "2024-01-01_000000" (decoded "bg" 1536 864)
          "Hello World" "#FFD000" None None <> Ok thumbnail).
Proof.
  split; [reflexivity|].
  apply (no_font_is_rejected default_settings (fun _ => None) no_decoder
           flat_encoder "2024-01-01_000000" (decoded "bg" 1536 864)
           "Hello World" "#FFD000" None None).
  reflexivity.
Defined.



(** ** Logo overlay *)



(** ** Encoder, for any settings *)



(** X10.  For any settings whose floor does not exceed the start, the
    encoder returns the encoding at a quality [q] between floor and start
    that lies a multiple of 5 below the start; every probe above [q] was
    over the budget, and the result itself is over the budget only if
    [q] is the last probe ([q - 5] is below the floor). *)
Theorem optimize_jpeg_returns_first_fit (settings : Settings)
    (save_jpeg : Image -> Z -> list byte) (image : Image)
    (max_size_bytes : Z) :
  jpeg_quality_min settings <= jpeg_quality_start settings ->
  exists q,
    jpeg_quality_min settings <= q <= jpeg_quality_start settings
    /\ (jpeg_quality_start settings - q) mod 5 = 0
    /\ _optimize_jpeg_size settings save_jpeg image max_size_bytes
       = Ok (save_jpeg image q)
    /\ (forall q', q < q' <= jpeg_quality_start settings ->
          (jpeg_quality_start settings - q') mod 5 = 0 ->
          max_size_bytes < jpeg_size save_jpeg image q')
    /\ (max_size_bytes < jpeg_size save_jpeg image q ->
        q - 5 < jpeg_quality_min settings).
Proof.
  intros Hle.
  destruct (optimize_jpeg_size_spec save_jpeg image max_size_bytes settings Hle)
    as (k & Hk & Hres & Hprev & Hstop).
  cbn zeta in *. set (start := jpeg_quality_start settings) in *.
  exists (start - 5 * Z.of_nat k). split; [lia|]. split.
  { replace (start - (start - 5 * Z.of_nat k)) with (Z.of_nat k * 5) by lia.
    apply Z.mod_mul. lia. }
  split; [exact Hres|]. split.
  - intros q' Hq' Hmod.
    apply Z.mod_divide in Hmod as [j Hj]; [|lia].
    replace q' with (start - 5 * Z.of_nat (Z.to_nat j)) by lia.
    apply Hprev. lia.
  - intros Hover. destruct Hstop; [lia|assumption].
Qed.

Lemma optimize_jpeg_returns_first_fit_witness :
  jpeg_quality_min default_settings <= jpeg_quality_start default_settings
  /\ exists q,
       jpeg_quality_min default_settings <= q
         <= jpeg_quality_start default_settings
       /\ (jpeg_quality_start default_settings - q) mod 5 = 0
       /\ _optimize_jpeg_size default_settings flat_encoder
            (decoded "canvas" 1280 720) 80
          = Ok (flat_encoder (decoded "canvas" 1280 720) q)
       /\ (forall q', q < q' <= jpeg_quality_start default_settings ->
             (jpeg_quality_start default_settings - q') mod 5 = 0 ->
             80 < jpeg_size flat_encoder (decoded "canvas" 1280 720) q')
       /\ (80 < jpeg_size flat_encoder (decoded "canvas" 1280 720) q ->
           q - 5 < jpeg_quality_min default_settings).
Proof.
  split; [cbn; lia|].
  apply (optimize_jpeg_returns_first_fit default_settings flat_encoder
           (decoded "canvas" 1280 720) 80).
  cbn; lia.
Defined.

(** X11.  If the encoded size never grows when the quality is lowered,
    the byte budget is met as soon as any quality between the last probe
    and the start meets it. *)
Theorem optimize_jpeg_meets_budget (settings : Settings)
    (save_jpeg : Image -> Z -> list byte) (image : Image)
    (max_size_bytes : Z) (q0 : Z) :
  (forall q q', q <= q' ->
     jpeg_size save_jpeg image q <= jpeg_size save_jpeg image q') ->
  jpeg_quality_min settings <= jpeg_quality_start settings ->
  jpeg_quality_start settings
  - 5 * ((jpeg_quality_start settings - jpeg_quality_min settings) / 5)
  <= q0 ->
  jpeg_size save_jpeg image q0 <= max_size_bytes ->
  exists data,
    _optimize_jpeg_size settings save_jpeg image max_size_bytes = Ok data
    /\ Z.of_nat (List.length data) <= max_size_bytes.
Proof.
  intros Hmono Hle Hq0 Hfit.
  destruct (optimize_jpeg_size_spec save_jpeg image max_size_bytes settings Hle)
    as (k & Hk & Hres & _ & Hstop).
  cbn zeta in *. set (start := jpeg_quality_start settings) in *.
  set (floor := jpeg_quality_min settings) in *.
  eexists. split; [exact Hres|]. fold (jpeg_size save_jpeg image (start - 5 * Z.of_nat k)).
  destruct Hstop as [Hok|Hlast]; [exact Hok|].
  assert (start - 5 * Z.of_nat k <= q0).
  { pose proof (Z.div_mod (start - floor) 5 ltac:(lia)) as Hdm.
    pose proof (Z.mod_pos_bound (start - floor) 5 ltac:(lia)) as Hmod.
    assert (Z.of_nat k >= (start - floor) / 5) by lia. nia. }
  pose proof (Hmono _ _ H). lia.
Qed.

Lemma optimize_jpeg_meets_budget_witness :
  let image := decoded "canvas" 1280 720 in
  (forall q q', q <= q' ->
     jpeg_size flat_encoder image q <= jpeg_size flat_encoder image q')
  /\ jpeg_quality_min default_settings <= jpeg_quality_start default_settings
  /\ jpeg_quality_start default_settings
     - 5 * ((jpeg_quality_start default_settings
             - jpeg_quality_min default_settings) / 5) <= 77
  /\ jpeg_size flat_encoder image 77 <= 80
  /\ exists data,
       _optimize_jpeg_size default_settings flat_encoder image 80 = Ok data
       /\ Z.of_nat (List.length data) <= 80.
Proof.
  intros image.
  assert (Hmono : forall q q', q <= q' ->
            jpeg_size flat_encoder image q <= jpeg_size flat_encoder image q').
  { intros q q' Hq. unfold jpeg_size, flat_encoder. rewrite !repeat_length. lia. }
  split; [exact Hmono|]. split; [cbn; lia|]. split; [cbn; lia|].
  split; [vm_compute; discriminate|].
  apply (optimize_jpeg_meets_budget default_settings flat_encoder image 80 77);
    [exact Hmono | cbn; lia | cbn; lia | vm_compute; discriminate].
Defined.

(** ** Strings *)

Section PyStrFacts.

Lemma prefix_iff (sub s : string) :
  String.prefix sub s = true <-> exists b, s = (sub ++ b)%string.
Proof.
  revert s. induction sub as [|c sub IH]; intros s.
  - split; [intros _; now exists s | intros _; now destruct s].
  - destruct s as [|d s]; cbn;
      [split; [discriminate | intros [b Hb]; discriminate]|].
    destruct (Ascii.ascii_dec c d) as [->|Hne].
    + rewrite IH. split; intros [b Hb]; exists b; congruence.
    + split; [discriminate|]. intros [b Hb]. congruence.
Qed.

Lemma contains_iff (sub s : string) :
  PyStr.contains sub s = true <-> exists a b, s = (a ++ sub ++ b)%string.
Proof.
  induction s as [|c s IH]; cbn [PyStr.contains].
  - destruct (String.prefix sub EmptyString) eqn:E.
    + split; [intros _|reflexivity]. apply prefix_iff in E as [b Hb].
      now exists EmptyString, b.
    + split; [discriminate|]. intros (a & b & Hab).
      destruct a; [|discriminate]. cbn in Hab.
      assert (String.prefix sub EmptyString = true)
        by (apply prefix_iff; now exists b).
      congruence.
  - destruct (String.prefix sub (String c s)) eqn:E.
    + split; [intros _|reflexivity]. apply prefix_iff in E as [b Hb].
      now exists EmptyString, b.
    + rewrite IH. split.
      * intros (a & b & ->). now exists (String c a), b.
      * intros (a & b & Hab). destruct a as [|d a].
        -- cbn in Hab.
           assert (String.prefix sub (String c s) = true)
             by (apply prefix_iff; now exists b).
           congruence.
        -- cbn in Hab. injection Hab as _ ->. now exists a, b.
Qed.

Lemma endswith_iff (s suffix : string) :
  PyStr.endswith s suffix = true <-> exists a, s = (a ++ suffix)%string.
Proof.
  induction s as [|c s IH]; cbn [PyStr.endswith].
  - destruct (String.eqb_spec EmptyString suffix) as [<-|Hne].
    + split; [intros _; now exists EmptyString | reflexivity].
    + split; [discriminate|]. intros [a Ha].
      destruct a; [cbn in Ha; congruence | discriminate].
  - destruct (String.eqb_spec (String c s) suffix) as [<-|Hne].
    + split; [intros _; now exists EmptyString | reflexivity].
    + rewrite IH. split.
      * intros [a ->]. now exists (String c a).
      * intros [a Ha]. destruct a as [|d a]; [cbn in Ha; congruence|].
        cbn in Ha. injection Ha as _ ->. now exists a.
Qed.

Lemma len_append (a b : string) :
  PyStr.len (a ++ b) = PyStr.len a + PyStr.len b.
Proof. unfold PyStr.len. rewrite string_length_append. lia. Qed.

Lemma substring_prefix (n : nat) (s : string) :
  exists rest, s = (String.substring 0 n s ++ rest)%string.
Proof.
  revert s. induction n as [|n IH]; intros s.
  - exists s. now destruct s.
  - destruct s as [|c s]; [now exists EmptyString|].
    destruct (IH s) as [rest Hrest]. exists rest. cbn. now rewrite <- Hrest.
Qed.

Lemma substring_length_le (n : nat) (s : string) :
  (String.length (String.substring 0 n s) <= n)%nat.
Proof.
  revert s. induction n as [|n IH]; intros s.
  - destruct s; cbn; lia.
  - destruct s as [|c s]; cbn; [lia|]. specialize (IH s). lia.
Qed.

Lemma substring_all (n : nat) (s : string) :
  (String.length s <= n)%nat -> String.substring 0 n s = s.
Proof.
  revert s. induction n as [|n IH]; intros s Hs.
  - destruct s; [reflexivity | cbn in Hs; lia].
  - destruct s as [|c s]; [reflexivity|]. cbn in *. f_equal. apply IH. lia.
Qed.

(** The name of [dir/file] is [file] when [file] has no slash. *)
Lemma name_from_plain (file : string) :
  PyStr.all_chars (fun c => negb (Ascii.eqb c "/")) file = true ->
  forall acc, PyStr.name_from acc file = (acc ++ file)%string.
Proof.
  induction file as [|c file IH]; intros Hfile acc; cbn.
  - now rewrite append_empty_r.
  - cbn in Hfile. apply andb_prop in Hfile as [Hc Hfile].
    apply negb_true_iff in Hc. rewrite Hc, IH by assumption.
    now rewrite append_assoc'.
Qed.

Lemma name_from_join (dir file : string) :
  PyStr.all_chars (fun c => negb (Ascii.eqb c "/")) file = true ->
  forall acc, PyStr.name_from acc (dir ++ "/" ++ file) = file.
Proof.
  intros Hfile.
  induction dir as [|c dir IH]; intros acc; cbn [append PyStr.name_from].
  - rewrite Ascii.eqb_refl. now rewrite name_from_plain.
  - destruct (Ascii.eqb c "/"); apply IH.
Qed.

Lemma path_name_join (dir file : string) :
  PyStr.all_chars (fun c => negb (Ascii.eqb c "/")) file = true ->
  PyStr.path_name (dir ++ "/" ++ file) = file.
Proof. intros Hfile. now apply name_from_join. Qed.

End PyStrFacts.

(** ** Image service *)

Section ServiceFacts.

Variable openai_image_size : string.
Variable Image_open : list byte -> result Image.
Variable describe : exn -> string.
Variable describe_failure : OpenAIImageService.failure -> string.
Variable response_data : Type.
Variable _make_api_request :
  string -> string -> OpenAIImageService.outcome response_data.
Variable image_url_of : response_data -> OpenAIImageService.outcome string.
Variable _download_image : string -> OpenAIImageService.outcome (list byte).

Lemma base_prompt_length : PyStr.len OpenAIImageService.base_prompt = 279.
Proof. reflexivity. Qed.

Lemma resize_background_succeeds (background : Image) :
  2 <= width background -> 1 <= height background ->
  exists canvas, _resize_background_to_canvas background = Ok canvas.
Proof.
  intros Hw Hh.
  pose proof (resize_background_cases background ltac:(lia) ltac:(lia)) as H.
  cbn zeta in H.
  destruct (_ <? _).
  - rewrite H. eexists. reflexivity.
  - destruct (_ <? _); rewrite H; unfold resize.
    + assert (1 <= height background * 1280 / 720)
        by (apply Z.div_le_lower_bound; lia).
      destruct (Z.ltb_spec (height background * 1280 / 720) 1); [lia|].
      cbn [orb Z.ltb Z.compare bind]. unfold crop.
      destruct (Z.ltb_spec
                  ((height background * 1280 / 720 - 1280) / 2 + 1280)
                  ((height background * 1280 / 720 - 1280) / 2)); [lia|].
      cbn. eexists. reflexivity.
    + assert (1 <= width background * 720 / 1280)
        by (apply Z.div_le_lower_bound; lia).
      destruct (Z.ltb_spec (width background * 720 / 1280) 1); [lia|].
      cbn [orb Z.ltb Z.compare bind]. unfold crop.
      destruct (Z.ltb_spec
                  ((width background * 720 / 1280 - 720) / 2 + 720)
                  ((width background * 720 / 1280 - 720) / 2)); [lia|].
      cbn. eexists. reflexivity.
Qed.

Lemma validated_image (image_data : list byte) (image : Image) :
  OpenAIImageService._validate_and_convert_image Image_open describe image_data
  = Ok image ->
  mode image = "RGB"%string /\ 512 <= width image /\ 512 <= height image
  /\ exists opened, Image_open image_data = Ok opened
                    /\ size image = size opened.
Proof.
  unfold OpenAIImageService._validate_and_convert_image.
  destruct (Image_open image_data) as [opened|e]; cbn [bind]; [|discriminate].
  destruct (_ || _) eqn:Hsmall; [discriminate|].
  apply orb_false_iff in Hsmall as [H1 H2]. apply Z.ltb_ge in H1, H2.
  intros H. injection H as <-.
  destruct (String.eqb_spec (mode opened) "RGB") as [E|E]; cbn [negb].
  - repeat split; try assumption. now exists opened.
  - unfold width, height in *. cbn [convert mode size].
    repeat split; try assumption. now exists opened.
Qed.

Lemma try_sizes_returned prompt (sizes : list string) :
  forall last image,
    OpenAIImageService.try_sizes Image_open describe response_data
      _make_api_request image_url_of _download_image prompt sizes last
    = inl image
    <-> exists before size after,
          sizes = before ++ size :: after
          /\ (forall s, In s before ->
                exists e,
                  OpenAIImageService.attempt Image_open describe response_data
                    _make_api_request image_url_of _download_image prompt s
                  = OpenAIImageService.Raised e)
          /\ OpenAIImageService.attempt Image_open describe response_data
               _make_api_request image_url_of _download_image prompt size
             = OpenAIImageService.Returned image.
Proof.
  induction sizes as [|size sizes IH]; intros last image;
    cbn [OpenAIImageService.try_sizes].
  - split; [discriminate|]. intros (before & s & after & E & _).
    destruct before; discriminate.
  - destruct (OpenAIImageService.attempt _ _ _ _ _ _ prompt size)
      as [img|e] eqn:Hat.
    + split.
      * intros H. injection H as <-. exists [], size, sizes.
        repeat split; auto. intros s [].
      * intros (before & s & after & E & Hfail & Hok).
        destruct before as [|b before]; cbn in E; injection E as <- ->.
        -- congruence.
        -- destruct (Hfail size (or_introl eq_refl)) as [e He]. congruence.
    + rewrite IH. split.
      * intros (before & s & after & -> & Hfail & Hok).
        exists (size :: before), s, after. repeat split; auto.
        intros s' [<-|Hin]; [now exists e | now apply Hfail].
      * intros (before & s & after & E & Hfail & Hok).
        destruct before as [|b before]; cbn in E; injection E as <- ->.
        -- congruence.
        -- exists before, s, after. repeat split; auto.
           intros s' Hin. apply Hfail. now right.
Qed.

Lemma try_sizes_failed prompt (sizes : list string) :
  forall last,
    (exists err,
       OpenAIImageService.try_sizes Image_open describe response_data
         _make_api_request image_url_of _download_image prompt sizes last
       = inr err)
    <-> (forall s, In s sizes ->
           exists e,
             OpenAIImageService.attempt Image_open describe response_data
               _make_api_request image_url_of _download_image prompt s
             = OpenAIImageService.Raised e).
Proof.
  induction sizes as [|size sizes IH]; intros last;
    cbn [OpenAIImageService.try_sizes].
  - split; [intros _ s [] | intros _; now exists last].
  - destruct (OpenAIImageService.attempt _ _ _ _ _ _ prompt size)
      as [img|e] eqn:Hat.
    + split; [intros [err H]; discriminate|].
      intros H. destruct (H size (or_introl eq_refl)) as [e He]. congruence.
    + rewrite IH. split.
      * intros H s [<-|Hin]; [now exists e | now apply H].
      * intros H s Hin. apply H. now right.
Qed.

End ServiceFacts.

(** X12.  The prompt never exceeds 1000 characters.  It is the base
    prompt, [", related to: "] and a prefix of the stripped topic -- the
    whole stripped topic whenever that has at most 707 characters. *)
Theorem prompt_is_bounded (topic : string) :
  PyStr.len (OpenAIImageService._build_prompt topic) <= 1000
  /\ exists kept rest,
       OpenAIImageService._build_prompt topic
       = (OpenAIImageService.base_prompt ++ ", related to: " ++ kept)%string
       /\ PyStr.strip topic = (kept ++ rest)%string
       /\ (PyStr.len (PyStr.strip topic) <= 707 -> rest = EmptyString).
Proof.
  unfold OpenAIImageService._build_prompt.
  set (stripped := PyStr.strip topic).
  rewrite !len_append, base_prompt_length.
  change (PyStr.len ", related to: ") with 14.
  destruct (Z.ltb_spec 1000 (279 + (14 + PyStr.len stripped))) as [Hlong|Hshort].
  - unfold PyStr.slice_to. change (1000 - 279 - 20 <? 0) with false. cbv iota.
    split.
    + rewrite !len_append, base_prompt_length.
      change (PyStr.len ", related to: ") with 14.
      pose proof (substring_length_le (Z.to_nat (1000 - 279 - 20)) stripped).
      unfold PyStr.len. lia.
    + destruct (substring_prefix (Z.to_nat (1000 - 279 - 20)) stripped)
        as [rest Hrest].
      eexists _, rest. split; [reflexivity|]. split; [exact Hrest|]. lia.
  - split.
    + rewrite !len_append, base_prompt_length.
      change (PyStr.len ", related to: ") with 14. lia.
    + exists stripped, EmptyString. split; [reflexivity|].
      split; [now rewrite append_empty_r | reflexivity].
Qed.

(** X13.  [_validate_and_convert_image] returns only images in mode RGB
    that are at least 512 pixels wide and tall, with the size they were
    decoded at; every failure, of the decoder or of the size check, is
    reported as a [ValueError] whose message starts with
    ["Invalid image data: "]. *)
Theorem validated_image_is_large_rgb
    (Image_open : list byte -> result Image) (describe : exn -> string)
    (image_data : list byte) :
  (forall image,
     OpenAIImageService._validate_and_convert_image Image_open describe
       image_data = Ok image ->
     mode image = "RGB"%string /\ 512 <= width image /\ 512 <= height image
     /\ exists opened, Image_open image_data = Ok opened
                       /\ size image = size opened)
  /\ (forall e,
        OpenAIImageService._validate_and_convert_image Image_open describe
          image_data = Raise e ->
        exists msg, e = ValueError ("Invalid image data: " ++ msg)).
Proof.
  split; [intros image; apply validated_image|].
  unfold OpenAIImageService._validate_and_convert_image. intros e.
  destruct (Image_open image_data) as [opened|e0]; cbn [bind].
  - destruct (_ || _); [|discriminate].
    intros H. injection H as <-. eexists. reflexivity.
  - intros H. injection H as <-. eexists. reflexivity.
Qed.


(** X15.  For a topic of at least three characters after stripping,
    [generate_background] returns the image of the first size, in the
    order configured size, 1536x864, 1024x1024, whose attempt succeeds;
    it raises only when the attempts at all three sizes fail. *)
Theorem background_falls_back_in_order (openai_image_size : string)
    (Image_open : list byte -> result Image) (describe : exn -> string)
    (describe_failure : OpenAIImageService.failure -> string)
    (response_data : Type)
    (_make_api_request :
       string -> string -> OpenAIImageService.outcome response_data)
    (image_url_of : response_data -> OpenAIImageService.outcome string)
    (_download_image : string -> OpenAIImageService.outcome (list byte))
    (topic : string) :
  let attempt :=
    OpenAIImageService.attempt Image_open describe response_data
      _make_api_request image_url_of _download_image
      (OpenAIImageService._build_prompt topic) in
  let sizes := [openai_image_size; "1536x864"; "1024x1024"]%string in
  let result :=
    OpenAIImageService.generate_background openai_image_size Image_open
      describe describe_failure response_data _make_api_request image_url_of
      _download_image topic in
  topic <> EmptyString -> 3 <= PyStr.len (PyStr.strip topic) ->
  (forall image,
     result = OpenAIImageService.Returned image
     <-> exists before size after,
           sizes = before ++ size :: after
           /\ (forall s, In s before ->
                 exists e, attempt s = OpenAIImageService.Raised e)
           /\ attempt size = OpenAIImageService.Returned image)
  /\ ((exists e, result = OpenAIImageService.Raised e)
      <-> forall s, In s sizes ->
            exists e, attempt s = OpenAIImageService.Raised e).
Proof.
  cbn zeta. intros Hne Hlen.
  unfold OpenAIImageService.generate_background.
  destruct topic as [|c topic]; [congruence|]. cbn [is_empty orb].
  destruct (Z.ltb_spec (PyStr.len (PyStr.strip (String c topic))) 3)
    as [Hshort|_]; [lia|].
  set (prompt := OpenAIImageService._build_prompt (String c topic)).
  set (sizes := [openai_image_size; "1536x864"%string; "1024x1024"%string]).
  pose proof (try_sizes_returned Image_open describe response_data
                _make_api_request image_url_of _download_image prompt sizes
                None) as Hret.
  pose proof (try_sizes_failed Image_open describe response_data
                _make_api_request image_url_of _download_image prompt sizes
                None) as Hfail.
  destruct (OpenAIImageService.try_sizes _ _ _ _ _ _ prompt sizes None)
    as [img|err] eqn:Htry.
  - split.
    + intros image. rewrite <- Hret. split; intros H; injection H as <-; reflexivity.
    + rewrite <- Hfail. split; [intros [e H]; discriminate|].
      intros [e H]. discriminate.
  - split.
    + intros image. rewrite <- Hret. split; [|discriminate].
      destruct err; discriminate.
    + rewrite <- Hfail. split; [intros _; now exists err|].
      intros _. destruct err; eexists; reflexivity.
Qed.


Lemma background_falls_back_in_order_witness :
  let attempt :=
    OpenAIImageService.attempt (fixed_decoder (decoded "bg" 1536 864))
      plain_describe string steady_request steady_url steady_download
      (OpenAIImageService._build_prompt "Python tips") in
  let sizes := ["1536x864"; "1536x864"; "1024x1024"]%string in
  "Python tips"%string <> EmptyString
  /\ 3 <= PyStr.len (PyStr.strip "Python tips")
  /\ (forall image,
        steady_background "Python tips" = OpenAIImageService.Returned image
        <-> exists before size after,
              sizes = before ++ size :: after
              /\ (forall s, In s before ->
                    exists e, attempt s = OpenAIImageService.Raised e)
              /\ attempt size = OpenAIImageService.Returned image)
  /\ ((exists e, steady_background "Python tips" = OpenAIImageService.Raised e)
      <-> forall s, In s sizes ->
            exists e, attempt s = OpenAIImageService.Raised e).
Proof.
  cbn zeta. split; [discriminate|]. split; [vm_compute; discriminate|].
  apply (background_falls_back_in_order "1536x864"
           (fixed_decoder (decoded "bg" 1536 864)) plain_describe
           plain_describe_failure string steady_request steady_url
           steady_download "Python tips");
    [discriminate | vm_compute; discriminate].
Defined.

(** ** Routes *)

Section RouteFacts.

Lemma stamp_char_no_slash (s : string) :
  PyStr.all_chars is_stamp_char s = true ->
  PyStr.all_chars (fun c => negb (Ascii.eqb c "/")) s = true.
Proof.
  induction s as [|c s IH]; [reflexivity|]. cbn. intros H.
  apply andb_prop in H as [Hc Hs]. rewrite IH by assumption.
  rewrite andb_true_r. apply negb_true_iff.
  destruct (Ascii.eqb_spec c "/") as [->|]; [discriminate|reflexivity].
Qed.

Lemma all_chars_append (p : ascii -> bool) (a b : string) :
  PyStr.all_chars p (a ++ b) = PyStr.all_chars p a && PyStr.all_chars p b.
Proof.
  induction a as [|c a IH]; [reflexivity|]. cbn. rewrite IH.
  now rewrite andb_assoc.
Qed.

(** A stamp followed by the thumbnail suffix passes the checks of
    [serve_thumbnail]. *)
Lemma stamped_name_checks (stamp : string) :
  PyStr.all_chars is_stamp_char stamp = true ->
  let name := (stamp ++ "_thumbnail.jpg")%string in
  is_empty name = false
  /\ PyStr.contains ".." name = false
  /\ PyStr.contains "/" name = false
  /\ PyStr.contains "\" name = false
  /\ PyStr.endswith name "_thumbnail.jpg" = true.
Proof.
  intros Hstamp. cbn zeta. split; [now destruct stamp|].
  assert (Hends : PyStr.endswith (stamp ++ "_thumbnail.jpg") "_thumbnail.jpg"
                  = true) by (apply endswith_iff; now exists stamp).
  repeat split; try exact Hends;
    induction stamp as [|c stamp IH]; try reflexivity;
    cbn in Hstamp; apply andb_prop in Hstamp as [Hc Hs];
    cbn [append PyStr.contains String.prefix];
    (destruct (Ascii.ascii_dec _ c) as [<-|_]; [discriminate|]);
    apply IH; try assumption;
    apply endswith_iff; now exists stamp.
Qed.

End RouteFacts.

Section ComposeResult.

Variable settings : Settings.
Variable get_font : Z -> option Font.
Variable Image_open : list byte -> result Image.
Variable save_jpeg : Image -> Z -> list byte.
Variable now : string.

(** What a successful composition leaves behind. *)
Lemma compose_result background title accent_color logo_image id thumbnail :
  compose_thumbnail settings get_font Image_open save_jpeg now
    background title accent_color logo_image (Some id) = Ok thumbnail ->
  size (pixels thumbnail) = (1280, 720)
  /\ (exists q, file_bytes thumbnail = save_jpeg (pixels thumbnail) q)
  /\ (id <> EmptyString ->
      file_path thumbnail
      = (data_dir settings ++ "/" ++ id ++ "_thumbnail.jpg")%string).
Proof.
  unfold compose_thumbnail.
  destruct (_resize_background_to_canvas background) as [canvas|e] eqn:Hbg;
    cbn [bind]; [|discriminate].
  apply resize_background_result_size in Hbg.
  destruct (_find_optimal_font_size get_font title text_area_width _)
    as [[font lines] font_size].
  destruct font as [font|]; [|discriminate].
  destruct lines as [|line lines]; [discriminate|].
  set (line_height := int (inject_Z font_size * (12 # 10))%Q).
  set (start_y := text_margin_top + _).
  pose proof (draw_lines_size font line_height (line :: lines)
                (_add_accent_bar canvas start_y accent_color) start_y) as Hdraw.
  destruct (fold_left _ (line :: lines) _) as [drawn y]. cbn [fst] in Hdraw.
  set (final := match logo_image with
                | Some (b :: bs) => _
                | _ => drawn
                end).
  assert (Hfinal : size final = (1280, 720)).
  { subst final. rewrite <- Hbg.
    destruct logo_image as [[|b bs]|]; try exact Hdraw.
    destruct (_process_logo Image_open (b :: bs)); exact Hdraw. }
  destruct (_optimize_jpeg_size settings save_jpeg final
              (max_file_size_bytes settings)) as [data|e] eqn:Henc;
    cbn [bind]; [|discriminate].
  intros H. injection H as <-. cbn [pixels file_bytes file_path].
  split; [exact Hfinal|]. split.
  - destruct (Z_lt_ge_dec (jpeg_quality_start settings)
                (jpeg_quality_min settings)) as [Hlt|Hge].
    + unfold _optimize_jpeg_size in Henc. rewrite optimize_loop_unfold in Henc.
      destruct (Z.ltb_spec (jpeg_quality_start settings)
                  (jpeg_quality_min settings)); [discriminate|lia].
    + destruct (optimize_jpeg_size_spec save_jpeg final
                  (max_file_size_bytes settings) settings ltac:(lia))
        as (k & _ & Hres & _).
      cbn zeta in *. rewrite Henc in Hres. injection Hres as ->.
      eexists. reflexivity.
  - intros Hid. destruct id; [congruence|reflexivity].
Qed.

(** Nothing after the layout can fail: with a normalised background, a
    layout that has a font and a line, and a floor not above the start,
    the composition succeeds, whatever the logo. *)
Lemma compose_succeeds background title accent_color logo_image request_id
    canvas font line lines font_size :
  _resize_background_to_canvas background = Ok canvas ->
  _find_optimal_font_size get_font title text_area_width text_area_height
  = (Some font, line :: lines, font_size) ->
  jpeg_quality_min settings <= jpeg_quality_start settings ->
  exists thumbnail,
    compose_thumbnail settings get_font Image_open save_jpeg now
      background title accent_color logo_image request_id = Ok thumbnail.
Proof.
  intros Hbg Hlayout Hq. unfold compose_thumbnail. rewrite Hbg. cbn [bind].
  fold text_area_height. rewrite Hlayout.
  destruct (fold_left _ (line :: lines) _) as [drawn y].
  set (final := match logo_image with
                | Some (b :: bs) => _
                | _ => drawn
                end).
  destruct (optimize_jpeg_size_spec save_jpeg final
              (max_file_size_bytes settings) settings Hq)
    as (k & _ & Hres & _).
  cbn zeta in Hres. rewrite Hres. cbn [bind]. eexists. reflexivity.
Qed.

End ComposeResult.

(** X16.  [serve_thumbnail] serves a file only under a name that contains
    no slash, no backslash and no [".."], and that ends in
    ["_thumbnail.jpg"]; the file served is [data_dir/filename], an
    existing regular file that resolves inside the data directory.
    Any other name is answered with an error, whatever the file system
    holds. *)
Theorem served_names_are_safe (settings : Settings)
    (path_exists path_is_file : string -> bool)
    (resolves_inside : string -> string -> bool)
    (filename : string) (file : Routes.FileResponse) :
  Routes.serve_thumbnail settings path_exists path_is_file resolves_inside
    filename = Routes.Return file ->
  (forall a b, filename <> (a ++ "/" ++ b)%string)
  /\ (forall a b, filename <> (a ++ "\" ++ b)%string)
  /\ (forall a b, filename <> (a ++ ".." ++ b)%string)
  /\ (exists stem, filename = (stem ++ "_thumbnail.jpg")%string)
  /\ Routes.path file = (data_dir settings ++ "/" ++ filename)%string
  /\ path_exists (Routes.path file) = true
  /\ path_is_file (Routes.path file) = true
  /\ resolves_inside (Routes.path file) (data_dir settings) = true
  /\ Routes.media_type file = "image/jpeg"%string.
Proof.
  unfold Routes.serve_thumbnail.
  destruct (is_empty filename) eqn:Hempty; cbn [orb]; [discriminate|].
  destruct (PyStr.contains ".." filename) eqn:Hdots; cbn [orb]; [discriminate|].
  destruct (PyStr.contains "/" filename) eqn:Hslash; cbn [orb]; [discriminate|].
  destruct (PyStr.contains "\" filename) eqn:Hback; [discriminate|].
  destruct (PyStr.endswith filename "_thumbnail.jpg") eqn:Hends;
    cbn [negb]; [|discriminate].
  destruct (path_exists _) eqn:Hexists; cbn [negb orb]; [|discriminate].
  destruct (path_is_file _) eqn:Hfile; cbn [negb]; [|discriminate].
  destruct (resolves_inside _ _) eqn:Hinside; cbn [negb]; [|discriminate].
  intros H. injection H as <-. cbn [Routes.path Routes.media_type].
  assert (Hno : forall sub, PyStr.contains sub filename = false ->
                  forall a b, filename <> (a ++ sub ++ b)%string).
  { intros sub Hsub a b E.
    assert (PyStr.contains sub filename = true)
      by (apply contains_iff; now exists a, b).
    congruence. }
  repeat split; auto.
  now apply endswith_iff.
Qed.

Lemma served_names_are_safe_witness :
  exists file,
    Routes.serve_thumbnail default_settings every_path every_path
      always_inside "20240101_000000_thumbnail.jpg" = Routes.Return file
    /\ (forall a b, "20240101_000000_thumbnail.jpg"%string
                    <> (a ++ "/" ++ b)%string)
    /\ (forall a b, "20240101_000000_thumbnail.jpg"%string
                    <> (a ++ "\" ++ b)%string)
    /\ (forall a b, "20240101_000000_thumbnail.jpg"%string
                    <> (a ++ ".." ++ b)%string)
    /\ (exists stem, "20240101_000000_thumbnail.jpg"%string
                     = (stem ++ "_thumbnail.jpg")%string)
    /\ Routes.path file
       = (data_dir default_settings ++ "/"
          ++ "20240101_000000_thumbnail.jpg")%string
    /\ every_path (Routes.path file) = true
    /\ every_path (Routes.path file) = true
    /\ always_inside (Routes.path file) (data_dir default_settings) = true
    /\ Routes.media_type file = "image/jpeg"%string.
Proof.
  eexists. split; [vm_compute; reflexivity|].
  apply (served_names_are_safe default_settings every_path every_path
           always_inside "20240101_000000_thumbnail.jpg").
  vm_compute; reflexivity.
Defined.

(** X17.  A logo that is neither PNG nor JPEG, or that is larger than
    2 MiB, is refused with status 400 before the image service or the
    composer is involved. *)
Theorem bad_logo_is_refused (settings : Settings)
    (get_font : Z -> option Font) (Image_open : list byte -> result Image)
    (save_jpeg : Image -> Z -> list byte) (now : string)
    (generate_background : string -> OpenAIImageService.outcome Image)
    (request_stamp title topic accent_color : string)
    (logo : Routes.UploadFile) :
  (Routes.content_type logo <> "image/png"%string
   /\ Routes.content_type logo <> "image/jpeg"%string)
  \/ 2 * 1024 * 1024 < Z.of_nat (List.length (Routes.content logo)) ->
  exists detail,
    Routes.generate_thumbnail settings get_font Image_open save_jpeg now
      generate_background request_stamp title topic accent_color (Some logo)
    = Routes.HTTPException 400 detail.
Proof.
  intros Hbad. unfold Routes.generate_thumbnail. cbn [existsb].
  destruct (String.eqb_spec (Routes.content_type logo) "image/png") as [Epng|Npng];
    destruct (String.eqb_spec (Routes.content_type logo) "image/jpeg") as [Ejpg|Njpg];
    cbn [orb negb];
    try (destruct (Z.ltb_spec (2 * 1024 * 1024)
                     (Z.of_nat (List.length (Routes.content logo))));
         [eexists; reflexivity|];
         destruct Hbad as [[H1 H2]|H1]; [congruence|lia]).
  eexists; reflexivity.
Qed.

Lemma bad_logo_is_refused_witness :
  let logo := Routes.mkUploadFile "logo.gif" "image/gif" [x00] in
  ((Routes.content_type logo <> "image/png"%string
    /\ Routes.content_type logo <> "image/jpeg"%string)
   \/ 2 * 1024 * 1024 < Z.of_nat (List.length (Routes.content logo)))
  /\ exists detail,
       Routes.generate_thumbnail default_settings mono no_decoder flat_encoder
         "2024-01-01_000000" steady_background "20240101_000000"
         "Hello World" "python" "#FFD000" (Some logo)
       = Routes.HTTPException 400 detail.
Proof.
  intros logo.
  assert (H : (Routes.content_type logo <> "image/png"%string
               /\ Routes.content_type logo <> "image/jpeg"%string)
              \/ 2 * 1024 * 1024 < Z.of_nat (List.length (Routes.content logo)))
    by (left; split; discriminate).
  split; [exact H|].
  apply (bad_logo_is_refused default_settings mono no_decoder flat_encoder
           "2024-01-01_000000" steady_background "20240101_000000"
           "Hello World" "python" "#FFD000" logo H).
Defined.

Section GenerateFacts.

Variable settings : Settings.
Variable get_font : Z -> option Font.
Variable Image_open : list byte -> result Image.
Variable save_jpeg : Image -> Z -> list byte.
Variable now : string.
Variable generate_background : string -> OpenAIImageService.outcome Image.
Variable request_stamp : string.

(** The one path through [generate_thumbnail] that returns. *)
Lemma generate_thumbnail_returns title topic accent_color logo r :
  Routes.generate_thumbnail settings get_font Image_open save_jpeg now
    generate_background request_stamp title topic accent_color logo
  = Routes.Return r ->
  exists background thumbnail,
    generate_background topic = OpenAIImageService.Returned background
    /\ compose_thumbnail settings get_font Image_open save_jpeg now background
         title accent_color (option_map Routes.content logo)
         (Some request_stamp) = Ok thumbnail
    /\ Models.new_ThumbnailResponse (PyStr.path_name (file_path thumbnail))
         1280 720 (Z.of_nat (List.length (file_bytes thumbnail)))
         ("/api/files/" ++ PyStr.path_name (file_path thumbnail))
       = Ok r.
Proof.
  unfold Routes.generate_thumbnail.
  set (checked := match logo with Some _ => _ | None => _ end).
  assert (Hcases : (exists status detail,
                      checked = Routes.HTTPException status detail)
                   \/ checked = Routes.Return (option_map Routes.content logo)).
  { subst checked. destruct logo as [logo|]; [|now right].
    destruct (negb _); [left; eauto|].
    destruct (_ <? _); [left; eauto|now right]. }
  destruct Hcases as [(status & detail & ->)| ->]; [discriminate|].
  destruct (generate_background topic) as [background|e]; [|discriminate].
  destruct (compose_thumbnail _ _ _ _ _ _ _ _ _ _) as [thumbnail|e] eqn:Hcompose;
    [|discriminate].
  destruct (Models.new_ThumbnailResponse _ _ _ _ _) as [r'|e] eqn:Hnew;
    [|discriminate].
  intros Hreturn. injection Hreturn as <-. now exists background, thumbnail.
Qed.

Lemma new_response_fields name w h n u r :
  Models.new_ThumbnailResponse name w h n u = Ok r ->
  r = Models.mkThumbnailResponse name w h n u /\ n <= 2 * 1024 * 1024.
Proof.
  unfold Models.new_ThumbnailResponse, Models.validate_size_limit.
  destruct (Z.ltb_spec (2 * 1024 * 1024) n) as [Hover|Hunder]; cbn [bind];
    [discriminate|].
  intros Hnew. injection Hnew as <-. split; [reflexivity|assumption].
Qed.

End GenerateFacts.







(** ** Listing *)

Section SortFacts.

Context {A : Type}.

Lemma insert_desc_perm (k : Q) (x : A) (l : list (Q * A)) :
  Permutation (Routes.insert_desc k x l) ((k, x) :: l).
Proof.
  induction l as [|[k' y] l IH]; cbn; [reflexivity|].
  destruct (Qle_bool k' k); [reflexivity|].
  rewrite IH. apply perm_swap.
Qed.

Lemma sort_desc_perm (l : list (Q * A)) : Permutation (Routes.sort_desc l) l.
Proof.
  induction l as [|[k x] l IH]; cbn; [reflexivity|].
  rewrite insert_desc_perm. now constructor.
Qed.

Lemma insert_desc_sorted (k : Q) (x : A) (l : list (Q * A)) :
  StronglySorted desc l -> StronglySorted desc (Routes.insert_desc k x l).
Proof.
  induction 1 as [|[k' y] l Hsorted IH Hall]; cbn.
  - constructor; constructor.
  - destruct (Qle_bool k' k) eqn:Hle.
    + apply Qle_bool_iff in Hle. constructor.
      * now constructor.
      * constructor; [exact Hle|].
        rewrite Forall_forall in *. intros q Hq.
        unfold desc in *. cbn [fst] in *.
        eapply Qle_trans; [apply (Hall q Hq)|exact Hle].
    + assert (Hlt : (k < k')%Q).
      { apply Qnot_le_lt. intros Hle'. apply Qle_bool_iff in Hle'. congruence. }
      constructor; [exact IH|].
      eapply Permutation_Forall; [symmetry; apply insert_desc_perm|].
      constructor; [|exact Hall].
      unfold desc. cbn [fst]. now apply Qlt_le_weak.
Qed.

Lemma sort_desc_sorted (l : list (Q * A)) :
  StronglySorted desc (Routes.sort_desc l).
Proof.
  induction l as [|[k x] l IH]; cbn; [constructor|].
  now apply insert_desc_sorted.
Qed.

Lemma in_firstn (n : nat) (l : list (Q * A)) p : In p (firstn n l) -> In p l.
Proof.
  intros Hp. rewrite <- (firstn_skipn n l). apply in_or_app. now left.
Qed.

Lemma in_skipn (n : nat) (l : list (Q * A)) p : In p (skipn n l) -> In p l.
Proof.
  intros Hp. rewrite <- (firstn_skipn n l). apply in_or_app. now right.
Qed.

Lemma sorted_firstn (R : Q * A -> Q * A -> Prop) (n : nat) (l : list (Q * A)) :
  StronglySorted R l -> StronglySorted R (firstn n l).
Proof.
  intros Hsorted. revert n.
  induction Hsorted as [|p l Hsorted IH Hall]; intros [|n]; cbn;
    try constructor; [apply IH|].
  rewrite Forall_forall in *. intros q Hq. apply Hall.
  eapply in_firstn; exact Hq.
Qed.

Lemma sorted_split (R : Q * A -> Q * A -> Prop) (n : nat) (l : list (Q * A)) :
  StronglySorted R l ->
  forall p q, In p (firstn n l) -> In q (skipn n l) -> R p q.
Proof.
  intros Hsorted. revert n.
  induction Hsorted as [|r l Hsorted IH Hall]; intros [|n] p q Hp Hq; cbn in *;
    try contradiction.
  destruct Hp as [<-|Hp].
  - rewrite Forall_forall in Hall. apply Hall.
    eapply in_skipn; exact Hq.
  - now apply (IH n).
Qed.

Lemma sort_keys_spec (key : A -> option Q) (l : list A) keyed :
  Routes.sort_keys key l = Some keyed ->
  map snd keyed = l /\ Forall (fun p => key (snd p) = Some (fst p)) keyed.
Proof.
  revert keyed. induction l as [|x l IH]; cbn; intros keyed H.
  - injection H as <-. split; constructor.
  - destruct (key x) as [k|] eqn:Hk; [|discriminate].
    destruct (Routes.sort_keys key l) as [keyed'|]; [|discriminate].
    injection H as <-. destruct (IH _ eq_refl) as [Hmap Hall].
    cbn. split; [now rewrite Hmap|]. now constructor.
Qed.

Lemma sort_keys_none (key : A -> option Q) (l : list A) (x : A) :
  In x l -> key x = None -> Routes.sort_keys key l = None.
Proof.
  intros Hin Hx. induction l as [|y l IH]; [contradiction|]. cbn.
  destruct Hin as [->|Hin].
  - now rewrite Hx.
  - rewrite (IH Hin). now destruct (key y).
Qed.

Lemma sort_keys_some (key : A -> option Q) (l : list A) :
  (forall x, In x l -> key x <> None) ->
  exists keyed, Routes.sort_keys key l = Some keyed.
Proof.
  induction l as [|x l IH]; intros Hall; cbn; [now eexists|].
  destruct (key x) as [k|] eqn:Hk; [|now destruct (Hall x (or_introl eq_refl))].
  destruct IH as [keyed ->]; [intros y Hy; apply Hall; now right|].
  now eexists.
Qed.

Lemma take_firstn (l : list A) (n : Z) :
  exists m, PyStr.take l n = firstn m l.
Proof. unfold PyStr.take. destruct (n <? 0); eexists; reflexivity. Qed.

Lemma take_length (l : list A) (n : Z) :
  Z.of_nat (List.length (PyStr.take l n))
  = slice_count (Z.of_nat (List.length l)) n.
Proof.
  unfold PyStr.take, slice_count.
  destruct (Z.ltb_spec n 0); rewrite length_firstn; lia.
Qed.

End SortFacts.

Section ListingFacts.

Variable max_thumbnails_list : Z.
Variable data_dir_exists : bool.
Variable glob : option (list string).
Variable stat_for_sort : string -> option Routes.stat_result.
Variable stat_for_item : string -> option Routes.stat_result.
Variable isoformat : Q -> option string.

Lemma list_items_length (files : list string) :
  (List.length (flat_map (Routes.list_item stat_for_item isoformat) files)
   <= List.length files)%nat.
Proof.
  induction files as [|f files IH]; cbn; [lia|].
  rewrite length_app. unfold Routes.list_item at 1.
  destruct (stat_for_item f) as [st|]; [|cbn; lia].
  destruct (isoformat _); cbn; lia.
Qed.

Lemma list_items_all (files : list string) :
  (forall f, In f files ->
     exists st created,
       stat_for_item f = Some st
       /\ isoformat (Routes.st_mtime st) = Some created) ->
  List.length (flat_map (Routes.list_item stat_for_item isoformat) files)
  = List.length files.
Proof.
  induction files as [|f files IH]; intros Hall; cbn; [reflexivity|].
  rewrite length_app, IH by (intros g Hg; apply Hall; now right).
  destruct (Hall f (or_introl eq_refl)) as (st & created & Hst & Hiso).
  unfold Routes.list_item. now rewrite Hst, Hiso.
Qed.

(** The path through [list_thumbnails] that reads the directory. *)
Lemma list_thumbnails_returns (limit : Z) (files : list string) r :
  Routes.list_thumbnails max_thumbnails_list data_dir_exists glob
    stat_for_sort stat_for_item isoformat limit = Routes.Return r ->
  data_dir_exists = true -> glob = Some files ->
  exists keyed,
    Routes.sort_keys (fun f => option_map Routes.st_mtime (stat_for_sort f))
      files = Some keyed
    /\ r = Models.mkThumbnailListResponse
             (flat_map (Routes.list_item stat_for_item isoformat)
                (PyStr.take (map snd (Routes.sort_desc keyed))
                   (Z.min limit max_thumbnails_list)))
             (Z.of_nat (List.length (map snd (Routes.sort_desc keyed)))).
Proof.
  unfold Routes.list_thumbnails. intros H -> ->. cbn [negb] in H.
  destruct (Routes.sort_keys _ files) as [keyed|]; [|discriminate].
  injection H as <-. now exists keyed.
Qed.

Lemma sorted_names_length (files : list string) keyed :
  Routes.sort_keys (fun f => option_map Routes.st_mtime (stat_for_sort f))
    files = Some keyed ->
  List.length (map snd (Routes.sort_desc keyed)) = List.length files.
Proof.
  intros Hkeys. apply sort_keys_spec in Hkeys as [<- _].
  rewrite !length_map. apply Permutation_length, sort_desc_perm.
Qed.

Lemma keyed_not_newer (p q : Q * string) :
  option_map Routes.st_mtime (stat_for_sort (snd p)) = Some (fst p) ->
  option_map Routes.st_mtime (stat_for_sort (snd q)) = Some (fst q) ->
  desc p q -> not_newer stat_for_sort (snd q) (snd p).
Proof.
  unfold desc, not_newer. intros Hp Hq Hle.
  destruct (stat_for_sort (snd p)) as [sp|]; [|discriminate].
  destruct (stat_for_sort (snd q)) as [sq|]; [|discriminate].
  cbn in Hp, Hq. injection Hp as Hp. injection Hq as Hq.
  exists sp, sq. rewrite Hp, Hq. auto.
Qed.

End ListingFacts.

(** X21.  With a limit that is not negative and a configured maximum of
    at least one, [list_thumbnails] returns at most [min(limit, maximum)]
    items and never more than [total_count]; [total_count] counts every
    file the directory holds, not the files shown; and every item shown
    carries the name and the size of one of those files. *)
Theorem listing_is_bounded (max_thumbnails_list : Z) (data_dir_exists : bool)
    (glob : option (list string))
    (stat_for_sort stat_for_item : string -> option Routes.stat_result)
    (isoformat : Q -> option string) (limit : Z)
    (r : Models.ThumbnailListResponse) :
  0 <= limit -> 1 <= max_thumbnails_list ->
  Routes.list_thumbnails max_thumbnails_list data_dir_exists glob
    stat_for_sort stat_for_item isoformat limit = Routes.Return r ->
  Z.of_nat (List.length (Models.thumbnails r))
  <= Z.min limit max_thumbnails_list
  /\ Z.of_nat (List.length (Models.thumbnails r)) <= Models.total_count r
  /\ (data_dir_exists = true ->
      exists files,
        glob = Some files
        /\ Models.total_count r = Z.of_nat (List.length files)
        /\ forall item, In item (Models.thumbnails r) ->
             exists file st,
               In file files /\ stat_for_item file = Some st
               /\ Models.item_filename item = PyStr.path_name file
               /\ Models.item_size_bytes item = Routes.st_size st).
Proof.
  intros Hlimit Hmax Hreturn.
  destruct data_dir_exists eqn:Hdir.
  2:{ unfold Routes.list_thumbnails in Hreturn. cbn in Hreturn.
      injection Hreturn as <-. cbn. repeat split; try lia; discriminate. }
  destruct glob as [files|] eqn:Hglob; [|discriminate].
  destruct (list_thumbnails_returns _ _ _ _ _ _ _ files _ Hreturn
              eq_refl eq_refl) as (keyed & Hkeys & ->).
  cbn [Models.thumbnails Models.total_count].
  pose proof (sorted_names_length _ _ _ Hkeys) as Hlen.
  set (sorted := map snd (Routes.sort_desc keyed)) in *.
  set (lim := Z.min limit max_thumbnails_list).
  pose proof (list_items_length stat_for_item isoformat
                (PyStr.take sorted lim)) as Hitems.
  pose proof (take_length sorted lim) as Htake.
  unfold slice_count in Htake.
  destruct (Z.ltb_spec lim 0); [lia|].
  split; [lia|]. split; [lia|].
  intros _. exists files. split; [reflexivity|]. split; [now rewrite Hlen|].
  intros item Hitem. apply in_flat_map in Hitem as (file & Hfile & Hitem).
  assert (Hin : In file files).
  { destruct (take_firstn sorted lim) as [m Hm]. rewrite Hm in Hfile.
    assert (Hsorted : In file sorted).
    { rewrite <- (firstn_skipn m sorted). apply in_or_app. now left. }
    apply sort_keys_spec in Hkeys as [<- _]. subst sorted.
    eapply Permutation_in; [|exact Hsorted].
    apply Permutation_map, sort_desc_perm. }
  unfold Routes.list_item in Hitem.
  destruct (stat_for_item file) as [st|] eqn:Hst; [|contradiction].
  destruct (isoformat _); [|contradiction].
  destruct Hitem as [<-|[]]. exists file, st. now repeat split.
Qed.

Lemma listing_is_bounded_witness :
  exists r,
    Routes.list_thumbnails 50 true three_files three_stats three_stats
      plain_isoformat 2 = Routes.Return r
    /\ Z.of_nat (List.length (Models.thumbnails r)) <= Z.min 2 50
    /\ Z.of_nat (List.length (Models.thumbnails r)) <= Models.total_count r.
Proof.
  eexists.
  assert (H : Routes.list_thumbnails 50 true three_files three_stats
                three_stats plain_isoformat 2 = Routes.Return _)
    by (vm_compute; reflexivity).
  destruct (listing_is_bounded 50 true three_files three_stats three_stats
              plain_isoformat 2 _ ltac:(lia) ltac:(lia) H)
    as (Hshown & Htotal & _).
  split; [exact H|]. split; [exact Hshown|exact Htotal].
Defined.

(** X22.  [list_thumbnails] shows the newest files, newest first: the
    files of the directory split into those shown and those held back,
    the items are those of the files shown, in their order, the files
    shown are in order of decreasing modification time, and no file held
    back is newer than a file shown. *)
Theorem listing_shows_newest (max_thumbnails_list : Z)
    (glob : option (list string))
    (stat_for_sort stat_for_item : string -> option Routes.stat_result)
    (isoformat : Q -> option string) (limit : Z) (files : list string)
    (r : Models.ThumbnailListResponse) :
  glob = Some files ->
  Routes.list_thumbnails max_thumbnails_list true glob
    stat_for_sort stat_for_item isoformat limit = Routes.Return r ->
  exists shown hidden,
    Permutation (shown ++ hidden) files
    /\ Models.thumbnails r
       = flat_map (Routes.list_item stat_for_item isoformat) shown
    /\ StronglySorted (fun f g => not_newer stat_for_sort g f) shown
    /\ forall f g, In f shown -> In g hidden -> not_newer stat_for_sort g f.
Proof.
  intros Hglob Hreturn.
  destruct (list_thumbnails_returns _ _ _ _ _ _ _ files _ Hreturn
              eq_refl Hglob) as (keyed & Hkeys & ->).
  cbn [Models.thumbnails].
  apply sort_keys_spec in Hkeys as [Hfiles Hall].
  pose proof (sort_desc_perm keyed) as Hperm.
  pose proof (sort_desc_sorted keyed) as Hsorted.
  assert (Hkeyed : Forall (fun p => option_map Routes.st_mtime
                                      (stat_for_sort (snd p)) = Some (fst p))
                     (Routes.sort_desc keyed))
    by (eapply Permutation_Forall; [symmetry; exact Hperm|exact Hall]).
  rewrite Forall_forall in Hkeyed.
  destruct (take_firstn (map snd (Routes.sort_desc keyed))
              (Z.min limit max_thumbnails_list)) as [m Hm].
  rewrite Hm, firstn_map.
  exists (map snd (firstn m (Routes.sort_desc keyed))),
         (map snd (skipn m (Routes.sort_desc keyed))).
  split; [|split; [reflexivity|split]].
  - rewrite <- map_app, firstn_skipn, <- Hfiles.
    now apply Permutation_map.
  - pose proof (sorted_firstn _ m _ Hsorted) as Hfirst.
    assert (Hin : forall p, In p (firstn m (Routes.sort_desc keyed)) ->
                    In p (Routes.sort_desc keyed))
      by (intros p; apply in_firstn).
    induction Hfirst as [|p l Hl IH Hp]; cbn; constructor.
    + apply IH. intros q Hq. apply Hin. now right.
    + rewrite Forall_forall in *. intros g Hg.
      apply in_map_iff in Hg as (q & <- & Hq).
      apply keyed_not_newer.
      * apply Hkeyed, Hin. now left.
      * apply Hkeyed, Hin. now right.
      * now apply Hp.
  - intros f g Hf Hg.
    apply in_map_iff in Hf as (p & <- & Hp).
    apply in_map_iff in Hg as (q & <- & Hq).
    apply keyed_not_newer.
    + eapply Hkeyed, in_firstn; exact Hp.
    + eapply Hkeyed, in_skipn; exact Hq.
    + exact (sorted_split _ m _ Hsorted p q Hp Hq).
Qed.

Lemma listing_shows_newest_witness :
  exists r shown hidden,
    Routes.list_thumbnails 50 true three_files three_stats three_stats
      plain_isoformat 2 = Routes.Return r
    /\ Permutation (shown ++ hidden)
         ["data/a_thumbnail.jpg"; "data/b_thumbnail.jpg";
          "data/c_thumbnail.jpg"]%string
    /\ Models.thumbnails r
       = flat_map (Routes.list_item three_stats plain_isoformat) shown
    /\ StronglySorted (fun f g => not_newer three_stats g f) shown
    /\ forall f g, In f shown -> In g hidden -> not_newer three_stats g f.
Proof.
  eexists.
  assert (H : Routes.list_thumbnails 50 true three_files three_stats
                three_stats plain_isoformat 2 = Routes.Return _)
    by (vm_compute; reflexivity).
  destruct (listing_shows_newest 50 three_files three_stats three_stats
              plain_isoformat 2 _ _ eq_refl H) as (shown & hidden & Hrest).
  exists shown, hidden. split; [exact H|exact Hrest].
Defined.

(** X23.  How many items are listed when every file can be read: with
    [lim = min(limit, maximum)], the first [lim] files when [lim] is not
    negative, and all but the [-lim] oldest when it is negative; a
    negative limit is not refused. *)
Theorem listing_count (max_thumbnails_list : Z) (glob : option (list string))
    (stat_for_sort stat_for_item : string -> option Routes.stat_result)
    (isoformat : Q -> option string) (limit : Z) (files : list string) :
  glob = Some files ->
  (forall f, In f files -> stat_for_sort f <> None) ->
  (forall f, In f files ->
     exists st created,
       stat_for_item f = Some st
       /\ isoformat (Routes.st_mtime st) = Some created) ->
  let lim := Z.min limit max_thumbnails_list in
  let n := Z.of_nat (List.length files) in
  exists r,
    Routes.list_thumbnails max_thumbnails_list true glob
      stat_for_sort stat_for_item isoformat limit = Routes.Return r
    /\ Models.total_count r = n
    /\ (0 <= lim -> Z.of_nat (List.length (Models.thumbnails r)) = Z.min lim n)
    /\ (lim < 0 ->
        Z.of_nat (List.length (Models.thumbnails r)) = Z.max 0 (n + lim)).
Proof.
  intros Hglob Hsort Hitem lim n.
  destruct (sort_keys_some
              (fun f => option_map Routes.st_mtime (stat_for_sort f)) files)
    as [keyed Hkeys].
  { intros f Hf. specialize (Hsort f Hf).
    destruct (stat_for_sort f); [discriminate|congruence]. }
  unfold Routes.list_thumbnails. rewrite Hglob. cbn [negb]. rewrite Hkeys.
  eexists. split; [reflexivity|]. cbn [Models.thumbnails Models.total_count].
  pose proof (sorted_names_length _ _ _ Hkeys) as Hlen.
  set (sorted := map snd (Routes.sort_desc keyed)) in *.
  fold lim.
  assert (Hsorted : forall f, In f sorted -> In f files).
  { intros f Hf. apply sort_keys_spec in Hkeys as [<- _]. subst sorted.
    eapply Permutation_in; [|exact Hf].
    apply Permutation_map, sort_desc_perm. }
  rewrite list_items_all.
  - pose proof (take_length sorted lim) as Htake. unfold slice_count in Htake.
    subst n. rewrite <- Hlen.
    destruct (Z.ltb_spec lim 0); repeat split; lia.
  - intros f Hf. apply Hitem, Hsorted.
    destruct (take_firstn sorted lim) as [m Hm]. rewrite Hm in Hf.
    rewrite <- (firstn_skipn m sorted). apply in_or_app. now left.
Qed.

Lemma listing_count_witness :
  exists r,
    Routes.list_thumbnails 50 true three_files three_stats three_stats
      plain_isoformat (-1) = Routes.Return r
    /\ Models.total_count r = 3
    /\ Z.of_nat (List.length (Models.thumbnails r)) = 2.
Proof.
  destruct (listing_count 50 three_files three_stats three_stats
              plain_isoformat (-1)
              ["data/a_thumbnail.jpg"; "data/b_thumbnail.jpg";
               "data/c_thumbnail.jpg"]%string eq_refl) as (r & H & Ht & _ & Hn).
  - intros f [<-|[<-|[<-|[]]]]; discriminate.
  - intros f [<-|[<-|[<-|[]]]]; eexists; eexists; split; reflexivity.
  - exists r. split; [exact H|]. split; [exact Ht|]. apply Hn. reflexivity.
Defined.

(** X24.  The sort reads every file's modification time outside the
    loop's [try]: one file of the directory that cannot be read then
    fails the whole listing with status 500, whatever the limit. *)
Theorem unreadable_file_fails_listing (max_thumbnails_list : Z)
    (glob : option (list string))
    (stat_for_sort stat_for_item : string -> option Routes.stat_result)
    (isoformat : Q -> option string) (limit : Z) (files : list string)
    (file : string) :
  glob = Some files -> In file files -> stat_for_sort file = None ->
  Routes.list_thumbnails max_thumbnails_list true glob
    stat_for_sort stat_for_item isoformat limit
  = Routes.HTTPException 500 "Failed to retrieve thumbnail list".
Proof.
  intros Hglob Hin Hstat. unfold Routes.list_thumbnails.
  rewrite Hglob. cbn [negb].
  rewrite (sort_keys_none _ files file Hin); [reflexivity|].
  now rewrite Hstat.
Qed.

Lemma unreadable_file_fails_listing_witness :
  Routes.list_thumbnails 50 true three_files
    (fun f => if String.eqb f "data/c_thumbnail.jpg" then None
              else three_stats f)
    three_stats plain_isoformat 20
  = Routes.HTTPException 500 "Failed to retrieve thumbnail list".
Proof.
  apply (unreadable_file_fails_listing 50 three_files _ three_stats
           plain_isoformat 20
           ["data/a_thumbnail.jpg"; "data/b_thumbnail.jpg";
            "data/c_thumbnail.jpg"]%string "data/c_thumbnail.jpg" eq_refl).
  - right; right; left; reflexivity.
  - reflexivity.
Defined.
